(** * fastify-errors-properties: validation-error normalisation and the
      response contract guard

    A shallow embedding of [src/lib/utils.js] ([get]) and of the validation
    module ([niceJoin], [validationMessagesFormatters],
    [convertValidationErrors], [addResponseValidation]), followed by the
    properties the specification states about them.

    Conventions of the embedding.
    - A JavaScript value is a term of [value]: JSON data plus [undefined].
      Numbers are the integers (every non-integral number is non-zero, hence
      truthy, and the code only prints numbers or compares them with [0]
      and [1]); an integer prints as its decimal writing, which is what
      JavaScript prints below 10^21, and is exact below 2^53.
    - A JavaScript string is a [string]; a character stands for one code
      unit (below 256).
    - An operation that can raise returns a [result]: [Return v] or
      [Throw e].
    - A plain object used as a dictionary ([errors], the formatter registry,
      the per-status validator table, [params]) is a [gmap] over its own
      string keys.  What such an object inherits from [Object.prototype]
      is written out at the two places where the code reaches it with a
      computed name: the read [validationMessagesFormatters[reason]]
      ([registry_member]) and the write [errors[property] = message]
      ([assign]).  The table of validators is read at the decimal writing
      of a number and [params] at fixed names, which [Object.prototype]
      does not have.
    - A message is a [string].  Two results of an inherited member are no
      strings: [false], which the code only tests with [!message], is
      written as the empty string, and the object the inherited
      [constructor] makes of a format is written as what it prints.  A
      list with a failure of the second sort ([object_message]) is set
      apart in the properties where the object itself would matter (as
      the prototype of [errors] it makes later assignments raise).
    - The walker [get] reads own properties: what a value inherits from
      its prototype are functions of the engine, which [value] has no
      term for.  A property name that [Object.prototype] has is set apart
      in the properties that read an object by name.
    - [lodash.get], [http-errors] and the schema compiler are dependencies:
      [get] and [compile] are parameters, [createError] builds the value
      that is thrown. *)

From Stdlib Require Import ZArith Ascii String.
From stdpp Require Import base option list gmap strings pretty.

Local Open Scope Z_scope.
Local Set Warnings "-register-all".

(** ** JavaScript values and exceptions *)

Inductive value : Type :=
  | Undefined
  | Null
  | Bool (b : bool)
  | Number (n : Z)
  | Str (s : string)
  | Arr (items : list value)
  | Obj (props : list (string * value)).

(** [{ section: { property: message } }] *)
Abbreviation Validations := (gmap string (gmap string string)).

Inductive exn : Type :=
  | TypeError
  | HttpError (statusCode : Z) (message : string)
              (failedValidations : option Validations).

Inductive result (A : Type) : Type :=
  | Return (a : A)
  | Throw (e : exn).
Arguments Return {A} a.
Arguments Throw {A} e.

Definition bind {A B : Type} (r : result A) (k : A → result B) : result B :=
  match r with
  | Return a => k a
  | Throw e => Throw e
  end.

Notation "x ← r ;;; k" := (bind r (λ x, k))
  (at level 20, r at level 100, k at level 200, right associativity,
   format "'[v' x  ←  r  ;;;  '/' k ']'").
Notation "' p ← r ;;; k" := (bind r (λ p, k))
  (at level 20, p pattern, r at level 100, k at level 200,
   right associativity, format "'[v' ' p  ←  r  ;;;  '/' k ']'").

(** [!v] is [negb (truthy v)]. *)
Definition truthy (v : value) : bool :=
  match v with
  | Undefined | Null => false
  | Bool b => b
  | Number n => negb (n =? 0)
  | Str s => negb (bool_decide (s = ""))
  | Arr _ | Obj _ => true
  end.

(** [v === s] for a string literal [s]. *)
Definition is_str (v : value) (s : string) : bool :=
  match v with
  | Str s' => bool_decide (s' = s)
  | _ => false
  end.

(** [v === n] for a number literal [n]. *)
Definition is_num (v : value) (n : Z) : bool :=
  match v with
  | Number m => bool_decide (m = n)
  | _ => false
  end.

(** [Array.prototype.join] on an array of strings. *)
Fixpoint join (sep : string) (l : list string) : string :=
  match l with
  | [] => ""
  | [x] => x
  | x :: rest => x +:+ sep +:+ join sep rest
  end.

(** [ToString], as a template literal [`${v}`] applies it.  Inside an array,
    [null] and [undefined] print as the empty string. *)
Fixpoint to_string (v : value) : string :=
  match v with
  | Undefined => "undefined"
  | Null => "null"
  | Bool true => "true"
  | Bool false => "false"
  | Number n => pretty n
  | Str s => s
  | Arr items =>
      join "," (map (λ x, match x with
                          | Undefined | Null => ""
                          | _ => to_string x
                          end) items)
  | Obj _ => "[object Object]"
  end.

(** ** String primitives *)

Definition is_digit (c : ascii) : bool :=
  match Ascii.is_nat c with Some _ => true | None => false end.

(** [s.startsWith(p)], [s.endsWith(p)] *)
Definition startsWith (s p : string) : bool := String.prefix p s.
Definition endsWith (s p : string) : bool :=
  String.prefix (String.rev p) (String.rev s).

(** [s.substring(start, end)]: both indices are clamped to the length and
    swapped when out of order. *)
Definition substring (s : string) (start end_ : nat) : string :=
  let len := String.length s in
  let a := (start `min` len)%nat in
  let b := (end_ `min` len)%nat in
  String.substring (a `min` b)%nat ((a `max` b) - (a `min` b))%nat s.

(** [s.substring(start)] *)
Definition substring_from (s : string) (start : nat) : string :=
  substring s start (String.length s).

(** The maximal prefix of [s] whose characters satisfy [p]. *)
Fixpoint take_while (p : ascii → bool) (s : string) : string :=
  match s with
  | "" => ""
  | String c t => if p c then String c (take_while p t) else ""
  end.

Fixpoint drop (n : nat) (s : string) : string :=
  match n, s with
  | O, _ => s
  | S k, "" => ""
  | S k, String _ t => drop k t
  end.

(** [s.replace(re, f)] for a regular expression [re] with the [g] flag whose
    matches are never empty.  [m s'] tells whether [re] matches at the start
    of the suffix [s'] and, if so, gives the replacement text and the length
    of the match.  The scan goes from left to right; after a match it
    resumes behind the matched text ([skip] counts the characters of the
    current match that are still to be passed over). *)
Fixpoint replace_all_from (m : string → option (string * nat))
    (skip : nat) (s : string) : string :=
  match s with
  | "" => ""
  | String c t =>
      match skip with
      | S k => replace_all_from m k t
      | O =>
          match m s with
          | Some (r, len) => r +:+ replace_all_from m (Nat.pred len) t
          | None => String c (replace_all_from m 0 t)
          end
      end
  end.

Definition replace_all (m : string → option (string * nat)) (s : string)
  : string := replace_all_from m 0 s.

(** The first character of [s] is [c]. *)
Definition head_is (c : ascii) (s : string) : bool :=
  match s with
  | String x _ => bool_decide (x = c)
  | "" => false
  end.

(** A bracket, then the longest run [inner] of characters of the class [p]
    (not empty), then a closing bracket: the match is replaced by a dot and
    [inner].  The class never holds the closing bracket, so no shorter run
    can match either. *)
Definition bracket_match (p : ascii → bool) (s : string)
  : option (string * nat) :=
  match s with
  | String c t =>
      let inner := take_while p t in
      if bool_decide (c = "["%char) && negb (bool_decide (inner = ""))
         && head_is "]" (drop (String.length inner) t)
      then Some ("." +:+ inner, S (S (String.length inner)))
      else None
  | "" => None
  end.

(** [/\[(\d+)\]/] at the start of [s], replaced by ['.$1']. *)
Definition array_path_match : string → option (string * nat) :=
  bracket_match is_digit.

(** [/\[([^\]]+)\]/] at the start of [s], replaced by ['.$1']. *)
Definition object_path_match : string → option (string * nat) :=
  bracket_match (λ c, negb (bool_decide (c = "]"%char))).

(** [/\(\?\:/] at the start of [s], replaced by ['(']. *)
Definition non_capturing_match (s : string) : option (string * nat) :=
  if String.prefix "(?:" s then Some ("(", 3%nat) else None.

(** [s.replace(/^should/, 'must')] *)
Definition replace_leading_should (s : string) : string :=
  if String.prefix "should" s then "must" +:+ drop 6 s else s.

(** The double quote character, as a one-character string. *)
Definition dquote : string := String "034"%char "".

(** A single or a double quote: the class of [quoted_match]. *)
Definition is_quote (c : ascii) : bool :=
  bool_decide (c = "'"%char) || bool_decide (c = "034"%char).

(** The test of the pattern [(?:^Q)(?:[^\.]+)(?:Q$)], where [Q] is the class
    of the two quote characters: a quote that starts the string, then at
    least one character other than a dot, then a quote that ends the
    string.  [dot_free_then_quote] is the part behind the first two
    characters: characters other than a dot, then a quote at the end. *)
Fixpoint dot_free_then_quote (s : string) : bool :=
  match s with
  | "" => false
  | String c "" => is_quote c
  | String c t => negb (bool_decide (c = "."%char)) && dot_free_then_quote t
  end.

Definition quoted_match (s : string) : bool :=
  match s with
  | String q (String c t) =>
      is_quote q && negb (bool_decide (c = "."%char)) && dot_free_then_quote t
  | _ => false
  end.

(** [s.split(sep)] for a one-character separator: never the empty list. *)
Fixpoint split (sep : ascii) (s : string) : list string :=
  match s with
  | "" => [""]
  | String c t =>
      if bool_decide (c = sep) then "" :: split sep t
      else match split sep t with
           | w :: ws => String c w :: ws
           | [] => [String c ""]
           end
  end.

(** White space and line terminators among the code units below 256. *)
Definition is_white_space (c : ascii) : bool :=
  match c with
  | "009" | "010" | "011" | "012" | "013" | " " | "160" => true
  | _ => false
  end%char.

Fixpoint trim_start (s : string) : string :=
  match s with
  | "" => ""
  | String c t => if is_white_space c then trim_start t else s
  end.

(** [s.trim()] *)
Definition trim (s : string) : string :=
  String.rev (trim_start (String.rev (trim_start s))).

(** [parseInt(ds, 10)] on a string of decimal digits. *)
Fixpoint parse_digits (acc : Z) (ds : string) : Z :=
  match ds with
  | "" => acc
  | String c t =>
      match Ascii.is_nat c with
      | Some d => parse_digits (10 * acc + Z.of_nat d) t
      | None => acc
      end
  end.

Definition parseInt (ds : string) : Z := parse_digits 0 ds.

(** ** Property access *)

(** The own property [name] of an object literal. *)
Fixpoint lookup_prop (props : list (string * value)) (name : string) : value :=
  match props with
  | [] => Undefined
  | (k, v) :: rest => if bool_decide (k = name) then v else lookup_prop rest name
  end.

(** [target[n]] for a number [n] that is a natural number.  Reading a
    property of [undefined] or [null] raises; an object is asked for the
    property named by the decimal writing of [n]. *)
Definition get_index (target : value) (n : Z) : result value :=
  match target with
  | Undefined | Null => Throw TypeError
  | Bool _ | Number _ => Return Undefined
  | Str s =>
      Return (match String.get (Z.to_nat n) s with
              | Some c => Str (String c "")
              | None => Undefined
              end)
  | Arr items => Return (default Undefined (items !! Z.to_nat n))
  | Obj props => Return (lookup_prop props (pretty n))
  end.

(** [target[name]] for a name that does not start with a digit: arrays and
    strings own [length].  The own properties only: an inherited member
    is a function of the engine. *)
Definition get_prop (target : value) (name : string) : result value :=
  match target with
  | Undefined | Null => Throw TypeError
  | Bool _ | Number _ => Return Undefined
  | Str s =>
      Return (if bool_decide (name = "length")
              then Number (Z.of_nat (String.length s)) else Undefined)
  | Arr items =>
      Return (if bool_decide (name = "length")
              then Number (Z.of_nat (length items)) else Undefined)
  | Obj props => Return (lookup_prop props name)
  end.

(** ** src/lib/utils.js *)

Module Utils.

(** [/\[(\d+)\]$/] matching the whole of [s]. *)
Definition bracket_index_at (s : string) : option string :=
  match s with
  | String c t =>
      let ds := take_while is_digit t in
      if bool_decide (c = "["%char) && negb (bool_decide (ds = ""))
         && bool_decide (drop (String.length ds) t = "]")
      then Some ds
      else None
  | "" => None
  end.

(** The second alternative of the pattern, tried at each position from the
    left. *)
Fixpoint bracket_index (s : string) : option string :=
  match bracket_index_at s with
  | Some ds => Some ds
  | None =>
      match s with
      | "" => None
      | String _ t => bracket_index t
      end
  end.

(** [index = token.match(/^(\d+)|(?:\[(\d+)\])$/)], then
    [index[1] || index[2]]: the leading digits when the token starts with
    a digit, else the digits of a closing [[digits]]. *)
Definition token_index (token : string) : option string :=
  match take_while is_digit token with
  | String c ds => Some (String c ds)
  | "" => bracket_index token
  end.

Fixpoint walk (target : value) (tokens : list string) : result value :=
  match tokens with
  | [] => Return target
  | token :: rest =>
      match target with
      | Undefined | Null => Return Undefined
      | _ =>
          target' ← match token_index token with
                    | Some ds => get_index target (parseInt ds)
                    | None => get_prop target token
                    end ;;;
          walk target' rest
      end
  end.

Definition get (target : value) (path : string) : result value :=
  walk target (map trim (split "." path)).

End Utils.

(** ** The validation module *)

(** [niceJoin(array, lastSeparator, separator)]; the defaults of the two
    separators are [" and "] and [", "]. *)
Definition niceJoin (array : list string) (lastSeparator separator : string)
  : string :=
  match array with
  | [] => ""
  | [x] => x
  | [_; _] => join lastSeparator array
  | _ =>
      join separator (take (length array - 1) array)
      +:+ lastSeparator +:+ default "" (last array)
  end.

(** The members of [validationMessagesFormatters].  A formatter that reads
    no argument is its message; one that only prints its argument is total;
    [enum] and [pattern] call a method of their argument and raise when the
    argument has no such method. *)
Module Formatters.

Definition contentType : string :=
  "only JSON payloads are accepted. Please set the " +:+ dquote
  +:+ "Content-Type" +:+ dquote +:+ " header to start with " +:+ dquote
  +:+ "application/json" +:+ dquote.
Definition json : string := "the body payload is not a valid JSON".
Definition jsonEmpty : string :=
  "the JSON body payload cannot be empty if the " +:+ dquote
  +:+ "Content-Type" +:+ dquote +:+ " header is set".
Definition missing : string := "must be present".
Definition unknown : string := "is not a valid property".
Definition uuid : string := "must be a valid GUID (UUID v4)".
Definition timestamp : string :=
  "must be a valid ISO 8601 / RFC 3339 timestamp (example: 2018-07-06T12:34:56Z)".
Definition date : string :=
  "must be a valid ISO 8601 / RFC 3339 date (example: 2018-07-06)".
Definition time : string :=
  "must be a valid ISO 8601 / RFC 3339 time (example: 12:34:56)".
Definition hostname : string := "must be a valid hostname".
Definition ipv4 : string := "must be a valid IPv4".
Definition ipv6 : string := "must be a valid IPv6".

Definition paramType (type : value) : string :=
  if is_str type "integer" then "must be a valid integer number"
  else if is_str type "number" then "must be a valid number"
  else if is_str type "boolean" then "must be a valid boolean (true or false)"
  else if is_str type "object" then "must be a object"
  else if is_str type "array" then "must be an array"
  else "must be a string".

Definition presentString : string := "must be a non empty string".

Definition minimum (min : value) : string :=
  "must be a number greater than or equal to " +:+ to_string min.
Definition maximum (max : value) : string :=
  "must be a number less than or equal to " +:+ to_string max.

Definition minimumProperties (min : value) : string :=
  if is_num min 1 then "cannot be a empty object"
  else "must be a object with at least " +:+ to_string min +:+ " properties".
Definition maximumProperties (max : value) : string :=
  if is_num max 0 then "must be a empty object"
  else "must be a object with at most " +:+ to_string max +:+ " properties".
Definition minimumItems (min : value) : string :=
  if is_num min 1 then "cannot be a empty array"
  else "must be an array with at least " +:+ to_string min +:+ " items".
Definition maximumItems (max : value) : string :=
  if is_num max 0 then "must be a empty array"
  else "must be an array with at most " +:+ to_string max +:+ " items".

(** [values.map(...)] exists on arrays only. *)
Definition enum (values : value) : result string :=
  match values with
  | Arr items =>
      Return ("must be one of the following values: "
              +:+ niceJoin (map (λ f, dquote +:+ to_string f +:+ dquote) items)
                    " or " ", ")
  | _ => Throw TypeError
  end.

(** [pattern.replace(...)] exists on strings only. *)
Definition pattern (pattern : value) : result string :=
  match pattern with
  | Str p =>
      Return ("must match pattern " +:+ dquote
              +:+ replace_all non_capturing_match p +:+ dquote)
  | _ => Throw TypeError
  end.

Definition invalidResponseCode (code : value) : string :=
  "This endpoint cannot respond with HTTP status " +:+ to_string code +:+ ".".
Definition invalidResponse (code : value) : string :=
  "The response returned from the endpoint violates its specification for the HTTP status "
  +:+ to_string code +:+ ".".
Definition invalidFormat (format : value) : string :=
  "must match format " +:+ dquote +:+ to_string format +:+ dquote
  +:+ " (format)".

End Formatters.

(** [ValidationFormatter]: called with one argument. *)
Abbreviation formatter := (value → result string).

Definition formatter_entries : list (string * formatter) :=
  [
    ("contentType", λ _, Return Formatters.contentType);
    ("json", λ _, Return Formatters.json);
    ("jsonEmpty", λ _, Return Formatters.jsonEmpty);
    ("missing", λ _, Return Formatters.missing);
    ("unknown", λ _, Return Formatters.unknown);
    ("uuid", λ _, Return Formatters.uuid);
    ("timestamp", λ _, Return Formatters.timestamp);
    ("date", λ _, Return Formatters.date);
    ("time", λ _, Return Formatters.time);
    ("hostname", λ _, Return Formatters.hostname);
    ("ipv4", λ _, Return Formatters.ipv4);
    ("ipv6", λ _, Return Formatters.ipv6);
    ("paramType", λ v, Return (Formatters.paramType v));
    ("presentString", λ _, Return Formatters.presentString);
    ("minimum", λ v, Return (Formatters.minimum v));
    ("maximum", λ v, Return (Formatters.maximum v));
    ("minimumProperties", λ v, Return (Formatters.minimumProperties v));
    ("maximumProperties", λ v, Return (Formatters.maximumProperties v));
    ("minimumItems", λ v, Return (Formatters.minimumItems v));
    ("maximumItems", λ v, Return (Formatters.maximumItems v));
    ("enum", Formatters.enum);
    ("pattern", Formatters.pattern);
    ("invalidResponseCode", λ v, Return (Formatters.invalidResponseCode v));
    ("invalidResponse", λ v, Return (Formatters.invalidResponse v));
    ("invalidFormat", λ v, Return (Formatters.invalidFormat v))
  ].

Definition validationMessagesFormatters : gmap string formatter :=
  list_to_map formatter_entries.

(** The registry is an object literal, so it has the members of
    [Object.prototype] besides its own.  Each is given here as what it
    does when it is called the way the [format] case calls a formatter: as
    a plain function, without a receiver, on one argument.  [toString]
    prints the missing receiver; [isPrototypeOf] answers [false] to what
    is not an object and needs its receiver otherwise; [constructor] is
    [Object], which makes an object of its argument; [__proto__] is no
    function; the others need their receiver first of all.  A result is
    written as a string: [false] as the empty string, the object as what
    it prints. *)
Definition object_prototype_entries : list (string * formatter) :=
  [
    ("constructor",
     λ v, Return (match v with
                  | Undefined | Null => "[object Object]"
                  | _ => to_string v
                  end));
    ("__defineGetter__", λ _, Throw TypeError);
    ("__defineSetter__", λ _, Throw TypeError);
    ("hasOwnProperty", λ _, Throw TypeError);
    ("__lookupGetter__", λ _, Throw TypeError);
    ("__lookupSetter__", λ _, Throw TypeError);
    ("isPrototypeOf",
     λ v, match v with
          | Arr _ | Obj _ => Throw TypeError
          | _ => Return ""
          end);
    ("propertyIsEnumerable", λ _, Throw TypeError);
    ("toString", λ _, Return "[object Undefined]");
    ("valueOf", λ _, Throw TypeError);
    ("__proto__", λ _, Throw TypeError);
    ("toLocaleString", λ _, Throw TypeError)
  ].

Definition object_prototype : gmap string formatter :=
  list_to_map object_prototype_entries.

(** [validationMessagesFormatters[name]]: an own member first, then an
    inherited one. *)
Definition registry_member (name : string) : option formatter :=
  (validationMessagesFormatters ∪ object_prototype) !! name.

(** One failure record of the schema validator.  [params] holds what the
    validator put there: a field that is absent reads as [undefined]. *)
Record ValidationResult : Type := {
  keyword : string;
  dataPath : string;
  params : gmap string value;
  message : string
}.

Definition param (e : ValidationResult) (name : string) : value :=
  default Undefined (params e !! name).

(** [section === 'querystring'] rewrites the section to ['query']. *)
Definition alias_section (section : string) : string :=
  if bool_decide (section = "querystring") then "query" else section.

(** "Normalize the key": a leading dot goes, then a pair of brackets around
    the whole key. *)
Definition normalize_key (dataPath : string) : string :=
  let key := dataPath in
  let key := if startsWith key "." then substring_from key 1 else key in
  if startsWith key "[" && endsWith key "]"
  then substring key 1 (String.length key - 1)
  else key.

(** "Find the property to add", "Remove useless quotes" and "Fix empty
    properties", on a key that is a string. *)
Definition finalize_property (key : string) : string :=
  let property :=
    replace_all object_path_match (replace_all array_path_match key) in
  let property :=
    if quoted_match property
    then substring property 1 (String.length property - 1)
    else property in
  if bool_decide (property = "") then "$root" else property.

(** [key.replace] exists on strings only. *)
Definition find_property (key : value) : result string :=
  match key with
  | Str k => Return (finalize_property k)
  | _ => Throw TypeError
  end.

(** [errors[property] = message] on the object literal [errors]: the name
    [__proto__] is the accessor [errors] inherits from [Object.prototype],
    and assigning to it adds no entry. *)
Definition assign (errors : gmap string string) (property msg : string)
  : gmap string string :=
  if bool_decide (property = "__proto__") then errors
  else <[property := msg]> errors.

Section convertValidationErrors.

(** [lodash.get], a dependency of the module. *)
Variable get : value → string → value.

(** The [switch] on [e.keyword]: the key and the message behind it. *)
Definition dispatch (data : value) (e : ValidationResult) (key : string)
  : result (value * string) :=
  let k := keyword e in
  if bool_decide (k = "required") || bool_decide (k = "dependencies") then
    Return (param e "missingProperty", Formatters.missing)
  else if bool_decide (k = "additionalProperties") then
    Return (param e "additionalProperty", Formatters.unknown)
  else if bool_decide (k = "type") then
    Return (Str key, Formatters.paramType (param e "type"))
  else if bool_decide (k = "minProperties") then
    Return (Str key, Formatters.minimumProperties (param e "limit"))
  else if bool_decide (k = "maxProperties") then
    Return (Str key, Formatters.maximumProperties (param e "limit"))
  else if bool_decide (k = "minItems") then
    Return (Str key, Formatters.minimumItems (param e "limit"))
  else if bool_decide (k = "maxItems") then
    Return (Str key, Formatters.maximumItems (param e "limit"))
  else if bool_decide (k = "minimum") then
    Return (Str key, Formatters.minimum (param e "limit"))
  else if bool_decide (k = "maximum") then
    Return (Str key, Formatters.maximum (param e "limit"))
  else if bool_decide (k = "enum") then
    msg ← Formatters.enum (param e "allowedValues") ;;;
    Return (Str key, msg)
  else if bool_decide (k = "pattern") then
    let pattern := param e "pattern" in
    let value := get data key in
    if is_str pattern ".+" && negb (truthy value) then
      Return (Str key, Formatters.presentString)
    else
      msg ← Formatters.pattern (param e "pattern") ;;;
      Return (Str key, msg)
  else if bool_decide (k = "format") then
    let reason := param e "format" in
    let reason :=
      if is_str reason "date-time" then Str "timestamp"
      else reason in
    msg ← default (λ v, Return (Formatters.invalidFormat v))
            (registry_member (to_string reason)) reason ;;;
    Return (Str key, msg)
  else
    Return (Str key, "").

(** The body of the loop: the property and the message of one failure. *)
Definition convert_one (data : value) (e : ValidationResult)
  : result (string * string) :=
  let key := normalize_key (dataPath e) in
  '(key, msg) ← dispatch data e key ;;;
  let msg :=
    if bool_decide (msg = "")
    then replace_leading_should (message e) +:+ " (" +:+ keyword e +:+ ")"
    else msg in
  property ← find_property key ;;;
  Return (property, msg).

(** [for (const e of validationErrors) { ...; errors[property] = message }] *)
Fixpoint convert_loop (data : value) (errors : gmap string string)
    (validationErrors : list ValidationResult) : result (gmap string string) :=
  match validationErrors with
  | [] => Return errors
  | e :: rest =>
      '(property, msg) ← convert_one data e ;;;
      convert_loop data (assign errors property msg) rest
  end.

Definition convertValidationErrors (section : string) (data : value)
    (validationErrors : list ValidationResult) : result Validations :=
  let section := alias_section section in
  errors ← convert_loop data ∅ validationErrors ;;;
  Return {[ section := errors ]}.

End convertValidationErrors.

(** [http-status-codes] *)
Definition INTERNAL_SERVER_ERROR : Z := 500.

(** [http-errors]: [createError(status, message, properties)] builds the
    error that is thrown. *)
Definition createError (status : Z) (msg : string)
    (failedValidations : option Validations) : exn :=
  HttpError status msg failedValidations.

(** What a compiled validator says of a payload: [validator(payload)] and
    [validator.errors]. *)
Record validation : Type := {
  valid : bool;
  errors : list ValidationResult
}.

Abbreviation validator := (value → validation).

Section addResponseValidation.

Variable get : value → string → value.

(** A response schema, and [this.responseValidatorSchemaCompiler.compile]. *)
Variable schema : Type.
Variable compile : schema → validator.

(** The part of [RouteOptions] the function reads and writes:
    [route.schema?.response] and [route.preSerialization] (the hook gets
    [reply.res.statusCode] and the payload). *)
Record RouteOptions : Type := {
  response : option (gmap string schema);
  preSerialization : option (Z → value → result value)
}.

(** [Object.entries(route.schema.response).reduce(...)] *)
Definition compile_validators (response : gmap string schema)
  : gmap string validator :=
  map_fold (λ code schema accu, <[code := compile schema]> accu) ∅ response.

(** The hook installed as [route.preSerialization]. *)
Definition guard (validators : gmap string validator)
    (statusCode : Z) (payload : value) : result value :=
  if bool_decide (statusCode = INTERNAL_SERVER_ERROR) then Return payload
  else
    match validators !! to_string (Number statusCode) with
    | None =>
        Throw (createError INTERNAL_SERVER_ERROR
                 (Formatters.invalidResponseCode (Number statusCode)) None)
    | Some validator =>
        let r := validator payload in
        if valid r then Return payload
        else
          failedValidations ←
            convertValidationErrors get "response" payload (errors r) ;;;
          Throw (createError INTERNAL_SERVER_ERROR
                   (Formatters.invalidResponse (Number statusCode))
                   (Some failedValidations))
    end.

Definition addResponseValidation (route : RouteOptions) : RouteOptions :=
  match response route with
  | None => route
  | Some schemas =>
      {| response := response route;
         preSerialization := Some (guard (compile_validators schemas)) |}
  end.

End addResponseValidation.

Arguments response {schema} _.
Arguments preSerialization {schema} _.

(** ** Vocabulary of the statements *)

(** [s.includes(sub)] *)
Fixpoint includes (s sub : string) : bool :=
  String.prefix sub s ||
  match s with
  | "" => false
  | String _ t => includes t sub
  end.

Definition is_string (v : value) : bool :=
  match v with Str _ => true | _ => false end.

Definition is_array (v : value) : bool :=
  match v with Arr _ => true | _ => false end.

(** An array or an object literal: what is an object to the engine. *)
Definition is_object (v : value) : bool :=
  match v with Arr _ | Obj _ => true | _ => false end.



(** The names of the members of [Object.prototype]. *)
Definition object_prototype_members : list string :=
  object_prototype_entries.*1.

Definition inherited_name (name : string) : bool :=
  bool_decide (name ∈ object_prototype_members).

(** The inherited members that raise when they are called as a formatter,
    whatever the argument. *)
Definition raising_members : list string :=
  ["__defineGetter__"; "__defineSetter__"; "hasOwnProperty";
   "__lookupGetter__"; "__lookupSetter__"; "propertyIsEnumerable";
   "valueOf"; "__proto__"; "toLocaleString"].

(** A failure record carries what its kind reads through a method call: a
    string [missingProperty], [additionalProperty] or [pattern], an array
    [allowedValues], and a [format] that does not select a member of the
    registry that raises on it: [enum] or [pattern] with an argument they
    cannot take, an inherited member that needs a receiver, or
    [isPrototypeOf] with an object. *)
Definition well_formed (e : ValidationResult) : bool :=
  let k := keyword e in
  if bool_decide (k = "required") || bool_decide (k = "dependencies") then
    is_string (param e "missingProperty")
  else if bool_decide (k = "additionalProperties") then
    is_string (param e "additionalProperty")
  else if bool_decide (k = "enum") then is_array (param e "allowedValues")
  else if bool_decide (k = "pattern") then is_string (param e "pattern")
  else if bool_decide (k = "format") then
    let reason := param e "format" in
    negb (bool_decide (to_string reason = "enum") && negb (is_array reason))
    && negb (bool_decide (to_string reason = "pattern")
             && negb (is_string reason))
    && negb (bool_decide (to_string reason ∈ raising_members))
    && negb (bool_decide (to_string reason = "isPrototypeOf")
             && is_object reason)
  else true.

(** A failure whose message is an object: its format selects the inherited
    [constructor]. *)
Definition object_message (e : ValidationResult) : bool :=
  bool_decide (keyword e = "format")
  && bool_decide (to_string (param e "format") = "constructor").

Definition string_messages (es : list ValidationResult) : bool :=
  forallb (λ e, negb (object_message e)) es.

(** The path walker of [src/lib/utils.js] in the place of [lodash.get]: the
    concrete [get] of the examples. *)
Definition walker_get (target : value) (path : string) : value :=
  match Utils.get target path with
  | Return v => v
  | Throw _ => Undefined
  end.



(** A predicate on every character of a string. *)
Fixpoint all_chars (p : ascii → bool) (s : string) : bool :=
  match s with
  | "" => true
  | String c t => p c && all_chars p t
  end.

(** A path as the validator writes it, cut into plain names and bracketed
    parts: [items[2]['x-y'].name] is [Name "items"], [Bracket "2"],
    [Bracket "'x-y'"], [Name ".name"]. *)
Inductive segment : Type :=
  | Name (s : string)
  | Bracket (k : string).

(** [c] is not the character [x]. *)
Definition not_char (x : ascii) (c : ascii) : bool :=
  negb (bool_decide (c = x)).

(** A name holds no opening bracket; what stands between brackets is not
    empty and holds no bracket. *)
Definition segment_ok (g : segment) : bool :=
  match g with
  | Name s => all_chars (not_char "[") s
  | Bracket k =>
      negb (bool_decide (k = ""))
      && all_chars (λ c, not_char "[" c && not_char "]" c) k
  end.

Fixpoint raw_path (p : list segment) : string :=
  match p with
  | [] => ""
  | Name s :: rest => s +:+ raw_path rest
  | Bracket k :: rest => "[" +:+ k +:+ "]" +:+ raw_path rest
  end.

(** The dotted notation: every bracketed part becomes a dot and the
    part. *)
Fixpoint dotted_path (p : list segment) : string :=
  match p with
  | [] => ""
  | Name s :: rest => s +:+ dotted_path rest
  | Bracket k :: rest => "." +:+ k +:+ dotted_path rest
  end.


(** The path between the two replacements: the brackets around digits are
    gone, the others are still there. *)
Fixpoint indices_dotted_path (p : list segment) : string :=
  match p with
  | [] => ""
  | Name s :: rest => s +:+ indices_dotted_path rest
  | Bracket k :: rest =>
      (if all_chars is_digit k then "." +:+ k else "[" +:+ k +:+ "]")
      +:+ indices_dotted_path rest
  end.


(** *** Sample failure records and a sample schema compiler *)

Definition type_failure (path : string) : ValidationResult :=
  {| keyword := "type"; dataPath := path;
     params := {[ "type" := Str "string" ]};
     message := "should be string" |}.

Definition pattern_failure (path pattern : string) : ValidationResult :=
  {| keyword := "pattern"; dataPath := path;
     params := {[ "pattern" := Str pattern ]};
     message := "should match pattern" |}.


Definition required_failure (name : string) : ValidationResult :=
  {| keyword := "required"; dataPath := "";
     params := {[ "missingProperty" := Str name ]};
     message := "should have required property" |}.

(** A line feed, the shortest string that is not empty and that the
    pattern [.+] rejects. *)
Definition line_feed : string := String "010"%char "".

(** A schema that only names one required property, and its validator. *)
Definition compile_required (name : string) : validator :=
  λ payload,
    match get_prop payload name with
    | Return Undefined | Throw _ =>
        {| valid := false; errors := [required_failure name] |}
    | Return _ => {| valid := true; errors := [] |}
    end.


(** *** The format kind *)



(** The message the words of the specification describe for the pattern
    kind: the value is looked up at the raw path of the failure. *)
Definition pattern_message_at_raw_path (get : value → string → value)
    (data : value) (e : ValidationResult) : result string :=
  if is_str (param e "pattern") ".+"
     && negb (truthy (get data (dataPath e)))
  then Return Formatters.presentString
  else Formatters.pattern (param e "pattern").


(** ** src/lib/utils.js, continued *)

Section upperFirst.

(** [String.prototype.toUpperCase], of the engine. *)
Variable toUpperCase : string → string.

(** [upperFirst(source)]: anything but a string that is not empty comes
    back as it is. *)
Definition upperFirst (source : value) : value :=
  match source with
  | Str (String c _ as s) =>
      Str (toUpperCase (String c "") +:+ substring_from s 1)
  | _ => source
  end.

End upperFirst.

(** Upper case on the letters [a] to [z], the other characters kept: what
    [toUpperCase] does on a string of ASCII characters. *)
Definition ascii_upper_char (c : ascii) : ascii :=
  let n := nat_of_ascii c in
  if (97 <=? n)%nat && (n <=? 122)%nat then ascii_of_nat (n - 32) else c.

Fixpoint ascii_upper (s : string) : string :=
  match s with
  | "" => ""
  | String c t => String (ascii_upper_char c) (ascii_upper t)
  end.

(** A character that is neither a dot nor white space. *)
Definition plain_char (c : ascii) : bool :=
  not_char "." c && negb (is_white_space c).

(** The kinds whose [case] takes the key from [params]. *)
Definition names_property (k : string) : bool :=
  bool_decide (k = "required") || bool_decide (k = "dependencies")
  || bool_decide (k = "additionalProperties").

(** A failure that makes the [pattern] case read the input data. *)
Definition reads_data (e : ValidationResult) : bool :=
  bool_decide (keyword e = "pattern") && is_str (param e "pattern") ".+".

(** * Properties *)

(** ** Strings *)

(** Decide the closed tests [bool_decide (a = b)] of the goal. *)
Ltac decide_closed :=
  repeat match goal with
  | |- context [bool_decide (?a = ?b)] =>
      let v := eval vm_compute in (bool_decide (a = b)) in
      match v with
      | true => change (bool_decide (a = b)) with true
      | false => change (bool_decide (a = b)) with false
      end
  end; cbn [orb andb negb].


Lemma app_cons (x : ascii) (a b : string) :
  String x a +:+ b = String x (a +:+ b).
Proof. done. Qed.

Lemma app_nil_l (s : string) : "" +:+ s = s.
Proof. done. Qed.

Lemma app_nil_r (s : string) : s +:+ "" = s.
Proof. induction s as [|c s IH]; [done|]. by rewrite app_cons, IH. Qed.

Lemma app_assoc (a b c : string) : (a +:+ b) +:+ c = a +:+ b +:+ c.
Proof. induction a as [|x a IH]; [done|]. by rewrite !app_cons, IH. Qed.

Lemma length_app (a b : string) :
  String.length (a +:+ b) = (String.length a + String.length b)%nat.
Proof. induction a as [|x a IH]; [done|]. rewrite app_cons. cbn. by rewrite IH. Qed.

Lemma prefix_app (p s : string) : String.prefix p (p +:+ s) = true.
Proof.
  induction p as [|x p IH]; [by destruct s|].
  rewrite app_cons. cbn. rewrite IH. by destruct (ascii_dec x x).
Qed.

Lemma includes_prefix (sub s : string) :
  String.prefix sub s = true → includes s sub = true.
Proof.
  intros H. destruct s as [|c t].
  - by destruct sub.
  - change (includes (String c t) sub)
      with (String.prefix sub (String c t) || includes t sub).
    by rewrite H.
Qed.

Lemma includes_app (a sub b : string) : includes (a +:+ sub +:+ b) sub = true.
Proof.
  induction a as [|x a IH].
  - rewrite app_nil_l. apply includes_prefix, prefix_app.
  - rewrite app_cons. cbn. rewrite IH. apply orb_true_r.
Qed.

(** ** Global replacement *)

Section replace_all_lemmas.
Variable m : string → option (string * nat).
Hypothesis m_bracket : ∀ c t, c ≠ "["%char → m (String c t) = None.

Lemma replace_all_from_skip (a rest : string) :
  replace_all_from m (String.length a) (a +:+ rest) = replace_all_from m 0 rest.
Proof. induction a as [|c a IH]; [done|]. by rewrite app_cons. Qed.

Lemma replace_all_pass (a rest : string) :
  all_chars (not_char "[") a = true →
  replace_all m (a +:+ rest) = a +:+ replace_all m rest.
Proof.
  unfold replace_all. induction a as [|c a IH]; [done|].
  cbn [all_chars]. intros [Hc Ha]%andb_true_iff.
  apply negb_true_iff, bool_decide_eq_false in Hc.
  rewrite !app_cons. cbn [replace_all_from].
  rewrite m_bracket by done. by rewrite IH.
Qed.

Lemma replace_all_fire (c : ascii) (a rest r : string) :
  m (String c a +:+ rest) = Some (r, S (String.length a)) →
  replace_all m (String c a +:+ rest) = r +:+ replace_all m rest.
Proof.
  unfold replace_all. rewrite app_cons. intros H. cbn [replace_all_from].
  rewrite H. cbn [Nat.pred]. by rewrite replace_all_from_skip.
Qed.

Lemma replace_all_miss (c : ascii) (rest : string) :
  m (String c rest) = None →
  replace_all m (String c rest) = String c (replace_all m rest).
Proof. unfold replace_all. intros H. cbn [replace_all_from]. by rewrite H. Qed.

End replace_all_lemmas.

Lemma take_while_app p (a : string) (c : ascii) (rest : string) :
  all_chars p a = true → p c = false →
  take_while p (a +:+ String c rest) = a.
Proof.
  intros Ha Hc. induction a as [|x a IH]; cbn.
  - rewrite app_nil_l. cbn. by rewrite Hc.
  - cbn in Ha. apply andb_true_iff in Ha as [Hx Ha].
    rewrite app_cons. cbn. by rewrite Hx, IH.
Qed.

Lemma drop_app (a rest : string) : drop (String.length a) (a +:+ rest) = rest.
Proof. induction a as [|x a IH]; [by destruct rest|]. by rewrite app_cons. Qed.

Lemma all_chars_app p (a b : string) :
  all_chars p (a +:+ b) = all_chars p a && all_chars p b.
Proof.
  induction a as [|x a IH]; [done|].
  rewrite app_cons. cbn. by rewrite IH, andb_assoc.
Qed.

Lemma all_chars_impl (p q : ascii → bool) (s : string) :
  (∀ c, p c = true → q c = true) → all_chars p s = true → all_chars q s = true.
Proof.
  intros Hpq. induction s as [|c s IH]; [done|]. cbn.
  intros [Hc Hs]%andb_true_iff. by rewrite (Hpq c Hc), IH.
Qed.

Lemma all_chars_false_split p (s : string) :
  all_chars p s = false →
  ∃ a c b, s = a +:+ String c b ∧ all_chars p a = true ∧ p c = false.
Proof.
  induction s as [|x s IH]; [done|]. cbn.
  destruct (p x) eqn:Hx; cbn.
  - intros (a & c & b & -> & Ha & Hc)%IH.
    exists (String x a), c, b. cbn. by rewrite Hx, Ha.
  - intros _. by exists "", x, s.
Qed.

Lemma bracket_match_other p c t :
  c ≠ "["%char → bracket_match p (String c t) = None.
Proof. intros H. unfold bracket_match. by rewrite bool_decide_eq_false_2. Qed.

Lemma bracket_match_fire p (k rest : string) :
  k ≠ "" → all_chars p k = true → p "]"%char = false →
  bracket_match p (String "[" (k +:+ "]") +:+ rest)
  = Some ("." +:+ k, S (String.length (k +:+ "]"))).
Proof.
  intros Hk Hp Hclose. rewrite app_cons, app_assoc. unfold bracket_match.
  rewrite (app_cons "]" "" rest), app_nil_l.
  rewrite take_while_app, drop_app by done.
  rewrite length_app, Nat.add_1_r. cbn.
  by rewrite (bool_decide_eq_false_2 (k = "")).
Qed.

Lemma bracket_match_miss p (k rest : string) :
  all_chars (not_char "]") k = true → all_chars p k = false →
  bracket_match p (String "[" (k +:+ "]" +:+ rest)) = None.
Proof.
  intros Hk (a & c & b & -> & Ha & Hc)%all_chars_false_split.
  rewrite all_chars_app in Hk. apply andb_true_iff in Hk as [_ Hk].
  cbn in Hk. apply andb_true_iff in Hk as [Hk _].
  apply negb_true_iff in Hk.
  unfold bracket_match.
  rewrite !app_assoc, app_cons.
  rewrite take_while_app, drop_app by done. cbn.
  by rewrite Hk, andb_false_r.
Qed.

Lemma segment_ok_bracket k :
  segment_ok (Bracket k) = true →
  k ≠ "" ∧ all_chars (not_char "[") k = true
  ∧ all_chars (not_char "]") k = true.
Proof.
  cbn. intros [Hk Hb]%andb_true_iff.
  apply negb_true_iff, bool_decide_eq_false in Hk. split_and!; [done|..].
  - revert Hb. apply all_chars_impl. by intros c [? _]%andb_true_iff.
  - revert Hb. apply all_chars_impl. by intros c [_ ?]%andb_true_iff.
Qed.

Lemma array_pass (segs : list segment) :
  forallb segment_ok segs = true →
  replace_all array_path_match (raw_path segs)
  = indices_dotted_path segs.
Proof.
  unfold array_path_match.
  induction segs as [|[s|k] segs IH]; [done|..];
    cbn [forallb raw_path indices_dotted_path];
    intros [Hg Hsegs]%andb_true_iff; specialize (IH Hsegs).
  - rewrite replace_all_pass by (apply bracket_match_other || done).
    by rewrite IH.
  - apply segment_ok_bracket in Hg as (Hk & Hopen & Hclose).
    destruct (all_chars is_digit k) eqn:Hd.
    + rewrite <-(app_assoc k "]"), (app_cons "[" "" ), app_nil_l, <-app_cons.
      erewrite replace_all_fire; [|by apply bracket_match_fire].
      by rewrite IH, app_assoc.
    + rewrite app_cons, app_nil_l.
      rewrite replace_all_miss by by apply bracket_match_miss.
      rewrite replace_all_pass by (apply bracket_match_other || done).
      rewrite (replace_all_pass _ (λ c t, bracket_match_other _ c t) "]")
        by done.
      by rewrite IH, !app_assoc.
Qed.

Lemma object_pass (segs : list segment) :
  forallb segment_ok segs = true →
  replace_all object_path_match (indices_dotted_path segs)
  = dotted_path segs.
Proof.
  unfold object_path_match.
  induction segs as [|[s|k] segs IH]; [done|..];
    cbn [forallb dotted_path indices_dotted_path];
    intros [Hg Hsegs]%andb_true_iff; specialize (IH Hsegs).
  - rewrite replace_all_pass by (apply bracket_match_other || done).
    by rewrite IH.
  - apply segment_ok_bracket in Hg as (Hk & Hopen & Hclose).
    destruct (all_chars is_digit k) eqn:Hd.
    + rewrite replace_all_pass
        by (apply bracket_match_other || by rewrite all_chars_app, Hopen).
      by rewrite IH, app_assoc.
    + rewrite !app_assoc, <-(app_assoc k "]"), (app_cons "[" "" ), app_nil_l,
        <-app_cons.
      erewrite replace_all_fire; [|by apply bracket_match_fire].
      by rewrite IH.
Qed.

(** ** The non-capturing marker *)

Lemma prefix_nil (s : string) : String.prefix "" s = true.
Proof. by destruct s. Qed.

Lemma prefix_cons (x : ascii) (p : string) (y : ascii) (s : string) :
  String.prefix (String x p) (String y s)
  = bool_decide (x = y) && String.prefix p s.
Proof.
  change (String.prefix (String x p) (String y s))
    with (if ascii_dec x y then String.prefix p s else false).
  destruct (ascii_dec x y) as [->|H].
  - by rewrite bool_decide_eq_true_2.
  - by rewrite bool_decide_eq_false_2.
Qed.

Lemma prefix_length (p s : string) :
  String.prefix p s = true → (String.length p ≤ String.length s)%nat.
Proof.
  revert s. induction p as [|x p IH]; intros [|y s]; cbn [String.length];
    try done; try lia.
  rewrite prefix_cons. intros [_ H%IH]%andb_true_iff. lia.
Qed.

Lemma prefix_marker_app (a b : string) :
  a ≠ "" →
  String.prefix "(?:" (a +:+ "(?:" +:+ b) = String.prefix "(?:" a.
Proof.
  destruct a as [|c1 [|c2 [|c3 a]]]; [done|..]; intros _;
    rewrite ?app_cons, ?app_nil_l, !prefix_cons.
  - decide_closed. by rewrite !andb_false_r.
  - decide_closed. by rewrite !andb_false_r.
  - by rewrite !prefix_nil.
Qed.

Lemma replace_marker_from (k : nat) (a b : string) :
  (k ≤ String.length a)%nat →
  replace_all_from non_capturing_match k (a +:+ "(?:" +:+ b)
  = replace_all_from non_capturing_match k a
    +:+ "(" +:+ replace_all non_capturing_match b.
Proof.
  revert k. induction a as [|c a IH]; intros k Hk.
  - cbn in Hk. replace k with 0%nat by lia. rewrite app_nil_l.
    change ("(?:" +:+ b) with (String "(" (String "?" (String ":" b))).
    cbn [replace_all_from]. unfold non_capturing_match at 1.
    rewrite !prefix_cons, prefix_nil. decide_closed. reflexivity.
  - rewrite app_cons. destruct k as [|k]; cbn [replace_all_from].
    + unfold non_capturing_match.
      rewrite <-app_cons, prefix_marker_app by done.
      destruct (String.prefix "(?:" (String c a)) eqn:Hp.
      * apply prefix_length in Hp. cbn in Hp.
        cbn [Nat.pred]. rewrite IH by lia. by rewrite app_assoc.
      * rewrite app_cons. by rewrite IH by lia.
    + apply IH. cbn in Hk. lia.
Qed.

Lemma replace_marker (a b : string) :
  replace_all non_capturing_match (a +:+ "(?:" +:+ b)
  = replace_all non_capturing_match a
    +:+ "(" +:+ replace_all non_capturing_match b.
Proof. apply replace_marker_from. lia. Qed.

Lemma includes_cons (c : ascii) (s sub : string) :
  includes (String c s) sub = false →
  String.prefix sub (String c s) = false ∧ includes s sub = false.
Proof. cbn [includes]. by intros [? ?]%orb_false_iff. Qed.

Lemma replace_no_marker (s : string) :
  includes s "(?:" = false → replace_all non_capturing_match s = s.
Proof.
  unfold replace_all. induction s as [|c s IH]; [done|].
  intros [Hp Hs]%includes_cons. cbn [replace_all_from].
  assert (non_capturing_match (String c s) = None) as ->
    by (unfold non_capturing_match; by rewrite Hp).
  by rewrite IH.
Qed.

(** ** Substrings and the quote test *)

Lemma substring_0_app (a b : string) :
  String.substring 0 (String.length a) (a +:+ b) = a.
Proof.
  induction a as [|x a IH]; [by destruct b|].
  rewrite app_cons. cbn. by rewrite IH.
Qed.

Lemma substring_skip (a s : string) (n : nat) :
  String.substring (String.length a) n (a +:+ s) = String.substring 0 n s.
Proof. induction a as [|x a IH]; [done|]. by rewrite app_cons. Qed.

Lemma substring_middle (a b c : string) :
  substring (a +:+ b +:+ c) (String.length a)
    (String.length a + String.length b) = b.
Proof.
  unfold substring. rewrite !length_app.
  rewrite (Nat.min_l (String.length a)) by lia.
  rewrite (Nat.min_l (String.length a + String.length b)) by lia.
  rewrite Nat.min_l, Nat.max_r by lia.
  replace (String.length a + String.length b - String.length a)%nat
    with (String.length b) by lia.
  by rewrite substring_skip, substring_0_app.
Qed.

Lemma substring_strip (q1 : ascii) (mid : string) (q2 : ascii) :
  let s := String q1 (mid +:+ String q2 "") in
  substring s 1 (String.length s - 1) = mid.
Proof.
  intros s.
  replace (String.length s - 1)%nat with (1 + String.length mid)%nat.
  - apply (substring_middle (String q1 "") mid (String q2 "")).
  - unfold s. cbn [String.length]. rewrite length_app. cbn [String.length]. lia.
Qed.

Lemma substring_from_1 (c : ascii) (t : string) :
  substring_from (String c t) 1 = t.
Proof.
  unfold substring_from.
  pose proof (substring_middle (String c "") t "") as H.
  by rewrite app_nil_r in H.
Qed.

Lemma dot_free_then_quote_spec (t : string) :
  dot_free_then_quote t = true
  ↔ ∃ mid q2, t = mid +:+ String q2 "" ∧ is_quote q2 = true
              ∧ all_chars (not_char ".") mid = true.
Proof.
  induction t as [|c t IH]; cbn.
  - split; [done|]. intros (mid & q2 & H & _). by destruct mid.
  - destruct t as [|c' t'].
    + split.
      * intros Hc. by exists "", c.
      * intros (mid & q2 & H & Hq & _). destruct mid as [|x mid].
        -- by injection H as ->.
        -- rewrite app_cons in H. injection H as _ H. by destruct mid.
    + rewrite andb_true_iff, IH. split.
      * intros (Hc & mid & q2 & -> & Hq & Hmid).
        exists (String c mid), q2. rewrite app_cons. cbn.
        unfold not_char at 1. by rewrite Hc.
      * intros (mid & q2 & H & Hq & Hmid). destruct mid as [|x mid].
        -- done.
        -- rewrite app_cons in H. injection H as -> H.
           cbn in Hmid. apply andb_true_iff in Hmid as [Hx Hmid].
           split; [done|]. by exists mid, q2.
Qed.

Lemma quoted_match_spec (s : string) :
  quoted_match s = true
  ↔ ∃ q1 mid q2, s = String q1 (mid +:+ String q2 "")
                 ∧ is_quote q1 = true ∧ is_quote q2 = true
                 ∧ mid ≠ "" ∧ all_chars (not_char ".") mid = true.
Proof.
  destruct s as [|q [|c t]]; cbn.
  - split; [done | by intros (? & ? & ? & ? & _)].
  - split; [done|]. intros (q1 & mid & q2 & H & _ & _ & Hmid & _).
    injection H as _ H. by destruct mid.
  - rewrite !andb_true_iff, dot_free_then_quote_spec. split.
    + intros [[Hq Hc] (mid & q2 & -> & Hq2 & Hmid)].
      exists q, (String c mid), q2. rewrite app_cons. cbn.
      unfold not_char at 1. by rewrite Hc.
    + intros (q1 & mid & q2 & H & Hq1 & Hq2 & Hne & Hmid).
      destruct mid as [|x mid]; [done|].
      rewrite app_cons in H. injection H as -> -> ->.
      cbn in Hmid. apply andb_true_iff in Hmid as [Hx Hmid].
      split; [done|]. by exists mid, q2.
Qed.

(** ** The normalized key *)

Lemma normalize_key_dot (name : string) :
  normalize_key (String "." name)
  = (if startsWith name "[" && endsWith name "]"
     then substring name 1 (String.length name - 1)
     else name).
Proof.
  unfold normalize_key.
  assert (startsWith (String "." name) "." = true) as ->
    by (unfold startsWith; by rewrite prefix_cons, prefix_nil).
  by rewrite substring_from_1.
Qed.

(** ** The property path *)

Lemma finalize_property_not_empty (key : string) : finalize_property key ≠ "".
Proof.
  unfold finalize_property.
  set (property := replace_all object_path_match _).
  destruct (quoted_match property) eqn:Hq.
  - apply quoted_match_spec in Hq as (q1 & mid & q2 & -> & _ & _ & Hmid & _).
    rewrite (substring_strip q1 mid q2).
    by rewrite bool_decide_eq_false_2.
  - by case_bool_decide.
Qed.

Lemma finalize_property_segments (segs : list segment) :
  forallb segment_ok segs = true →
  finalize_property (raw_path segs)
  = (let property := dotted_path segs in
     let property :=
       if quoted_match property
       then substring property 1 (String.length property - 1)
       else property in
     if bool_decide (property = "") then "$root" else property).
Proof.
  intros H. unfold finalize_property.
  rewrite (array_pass segs H), (object_pass segs H). reflexivity.
Qed.

(** ** The response contract guard *)

Section guard_properties.

Variable get : value → string → value.
Variable schema : Type.
Variable compile : schema → validator.

Lemma compile_validators_lookup (schemas : gmap string schema) (code : string) :
  compile_validators schema compile schemas !! code
  = compile <$> schemas !! code.
Proof.
  unfold compile_validators.
  apply (map_fold_weak_ind
           (λ r m, r !! code = compile <$> (m !! code))).
  - by rewrite !lookup_empty.
  - intros i x m r _ IH.
    destruct (decide (i = code)) as [->|Hne].
    + by rewrite !lookup_insert_eq.
    + by rewrite !lookup_insert_ne.
Qed.

Lemma guard_installed (schemas : gmap string schema) pre :
  preSerialization
    (addResponseValidation get schema compile
       {| response := Some schemas; preSerialization := pre |})
  = Some (guard get (compile_validators schema compile schemas)).
Proof. done. Qed.

Lemma guard_not_installed pre :
  addResponseValidation get schema compile
    {| response := None; preSerialization := pre |}
  = {| response := None; preSerialization := pre |}.
Proof. done. Qed.

End guard_properties.


(** ** The formatter registry *)

Lemma registry_cases (name : string) (f : formatter) :
  validationMessagesFormatters !! name = Some f →
  (name = "enum" ∧ f = Formatters.enum)
  ∨ (name = "pattern" ∧ f = Formatters.pattern)
  ∨ (name ≠ "enum" ∧ name ≠ "pattern"
     ∧ ∃ g : value → string, f = λ v, Return (g v)).
Proof.
  intros H. apply elem_of_list_to_map_2 in H. unfold formatter_entries in H.
  repeat (apply elem_of_cons in H as [H|H];
          [injection H as -> ->; eauto 8|]).
  by apply elem_of_nil in H.
Qed.

(** ** The error monad *)

Lemma bind_Return {A B} (m : result A) (k : A → result B) (b : B) :
  bind m k = Return b ↔ ∃ a, m = Return a ∧ k a = Return b.
Proof.
  destruct m as [a|x]; cbn.
  - split; [eauto | by intros (a' & [= <-] & H)].
  - split; [done | by intros (a' & ? & _)].
Qed.

Lemma bind_Throw {A B} (m : result A) (k : A → result B) (x : exn) :
  bind m k = Throw x ↔ m = Throw x ∨ ∃ a, m = Return a ∧ k a = Throw x.
Proof.
  destruct m as [a|y]; cbn.
  - split; [eauto | by intros [?|(a' & [= <-] & H)]].
  - split; [intros [= ->]; by left|].
    intros [[= ->]|(a' & H & _)]; [done | discriminate H].
Qed.

(** ** The normalizer: which calls return *)

(** Follow the [switch] on [keyword e]: one goal per case, and a last one
    for the kinds without a case. *)
Ltac by_keyword e :=
  repeat match goal with
  | |- context [bool_decide (keyword e = ?s)] =>
      let H := fresh "Hk" in
      destruct (decide (keyword e = s)) as [H|H];
      [ rewrite H; decide_closed
      | rewrite (bool_decide_eq_false_2 _ H); cbn [orb] ]
  end.

Lemma find_property_returns (key : value) :
  (∃ p, find_property key = Return p) ↔ is_string key = true.
Proof.
  destruct key; cbn; split; try done; try (intros [? ?]; done); eauto.
Qed.

Lemma find_property_throws (key : value) (x : exn) :
  find_property key = Throw x → x = TypeError.
Proof. destruct key; cbn; congruence. Qed.

Lemma object_prototype_cases (name : string) (f : formatter) :
  object_prototype !! name = Some f →
  (name = "constructor"
   ∧ f = λ v, Return (match v with
                      | Undefined | Null => "[object Object]"
                      | _ => to_string v
                      end))
  ∨ (name = "isPrototypeOf"
     ∧ f = λ v, match v with
                | Arr _ | Obj _ => Throw TypeError
                | _ => Return ""
                end)
  ∨ (name = "toString" ∧ f = λ _, Return "[object Undefined]")
  ∨ (name ∈ raising_members ∧ f = λ _, Throw TypeError).
Proof.
  intros H. apply elem_of_list_to_map_2 in H.
  unfold object_prototype_entries in H.
  repeat (apply elem_of_cons in H as [H|H];
          [injection H as -> ->;
           first [ by left | by right; left | by right; right; left
                 | right; right; right; split;
                   [by apply (bool_decide_unpack _) | done] ] |]).
  by apply elem_of_nil in H.
Qed.

Lemma object_prototype_lookup (name : string) :
  is_Some (object_prototype !! name) ↔ inherited_name name = true.
Proof.
  unfold inherited_name, object_prototype_members, object_prototype.
  rewrite bool_decide_eq_true. split.
  - intros [f Hf%elem_of_list_to_map_2].
    apply list_elem_of_fmap. by exists (name, f).
  - intros H. destruct (list_to_map _ !! name) eqn:E; [by eexists|].
    by apply not_elem_of_list_to_map in E.
Qed.

Lemma object_prototype_None (name : string) :
  object_prototype !! name = None ↔ inherited_name name = false.
Proof.
  rewrite eq_None_not_Some, object_prototype_lookup.
  by destruct (inherited_name name).
Qed.

Lemma registry_own_not_inherited (name : string) (f : formatter) :
  validationMessagesFormatters !! name = Some f →
  object_prototype !! name = None.
Proof.
  intros H. apply elem_of_list_to_map_2 in H. unfold formatter_entries in H.
  repeat (apply elem_of_cons in H as [H|H];
          [injection H as -> _; by vm_compute |]).
  by apply elem_of_nil in H.
Qed.

Lemma registry_member_own (name : string) (f : formatter) :
  validationMessagesFormatters !! name = Some f →
  registry_member name = Some f.
Proof. intros H. unfold registry_member. by apply lookup_union_Some_l. Qed.

Lemma registry_member_inherited (name : string) :
  validationMessagesFormatters !! name = None →
  registry_member name = object_prototype !! name.
Proof. intros H. unfold registry_member. by rewrite lookup_union_r. Qed.


Lemma registry_throws (name : string) (f : formatter) (v : value) (x : exn) :
  registry_member name = Some f → f v = Throw x → x = TypeError.
Proof.
  destruct (validationMessagesFormatters !! name) as [f'|] eqn:E.
  - rewrite (registry_member_own name f' E). intros [= <-].
    apply registry_cases in E as [[_ ->]|[[_ ->]|(_ & _ & g & ->)]]; [| |done].
    + destruct v; cbn; congruence.
    + destruct v; cbn; congruence.
  - rewrite (registry_member_inherited name E).
    intros [[_ ->]|[[_ ->]|[[_ ->]|[_ ->]]]]%object_prototype_cases;
      [done| |done|congruence].
    destruct v; congruence.
Qed.

Lemma raising_members_inherited (name : string) :
  name ∈ raising_members → inherited_name name = true.
Proof.
  unfold raising_members. intros H.
  repeat (apply elem_of_cons in H as [->|H]; [by vm_compute|]).
  by apply elem_of_nil in H.
Qed.

Lemma format_returns (reason : value) :
  (∃ msg, default (λ v, Return (Formatters.invalidFormat v))
            (registry_member (to_string reason)) reason
          = Return msg)
  ↔ negb (bool_decide (to_string reason = "enum") && negb (is_array reason))
    && negb (bool_decide (to_string reason = "pattern")
             && negb (is_string reason))
    && negb (bool_decide (to_string reason ∈ raising_members))
    && negb (bool_decide (to_string reason = "isPrototypeOf")
             && is_object reason) = true.
Proof.
  destruct (validationMessagesFormatters !! to_string reason) as [f|] eqn:E.
  - rewrite (registry_member_own _ f E).
    pose proof (registry_own_not_inherited _ f E) as Hown.
    apply object_prototype_None in Hown.
    assert (to_string reason ∉ raising_members) as Hr.
    { intros H%raising_members_inherited. congruence. }
    assert (to_string reason ≠ "isPrototypeOf") as Hi.
    { intros H. rewrite H in Hown. by vm_compute in Hown. }
    rewrite (bool_decide_eq_false_2 _ Hr), (bool_decide_eq_false_2 _ Hi).
    cbn [negb andb]. rewrite !andb_true_r.
    apply registry_cases in E as [[-> ->]|[[-> ->]|(Hne & Hnp & g & ->)]].
    + rewrite bool_decide_eq_true_2 by done.
      rewrite (bool_decide_eq_false_2 ("enum" = "pattern")) by done.
      destruct reason; cbn; split; try done; try (intros [? ?]; done); eauto.
    + rewrite (bool_decide_eq_false_2 ("pattern" = "enum")) by done.
      rewrite bool_decide_eq_true_2 by done.
      destruct reason; cbn; split; try done; try (intros [? ?]; done); eauto.
    + rewrite !bool_decide_eq_false_2 by done. cbn. split; eauto.
  - assert (to_string reason ≠ "enum") by (intros E'; by rewrite E' in E).
    assert (to_string reason ≠ "pattern") by (intros E'; by rewrite E' in E).
    rewrite (registry_member_inherited _ E).
    rewrite (bool_decide_eq_false_2 (_ = "enum")) by done.
    rewrite (bool_decide_eq_false_2 (_ = "pattern")) by done.
    cbn [negb andb].
    destruct (object_prototype !! to_string reason) as [f|] eqn:Ef.
    + apply object_prototype_cases in Ef
        as [[Hn ->]|[[Hn ->]|[[Hn ->]|[Hn ->]]]]; cbn [default]; unfold id.
      * rewrite Hn. split; [by vm_compute | intros _; eauto].
      * rewrite Hn.
        rewrite (bool_decide_eq_false_2 ("isPrototypeOf" ∈ _))
          by (by apply (bool_decide_unpack _)).
        rewrite bool_decide_eq_true_2 by done. clear Hn.
        destruct reason; cbn; split; try done; try (intros [? ?]; done);
          eauto.
      * rewrite Hn. split; [by vm_compute | intros _; eauto].
      * rewrite (bool_decide_eq_true_2 _ Hn). cbn.
        split; [by intros [? ?] | done].
    + apply object_prototype_None in Ef.
      assert (to_string reason ∉ raising_members) as Hr.
      { intros Hm%raising_members_inherited. congruence. }
      assert (to_string reason ≠ "isPrototypeOf") as Hi.
      { intros Hm. rewrite Hm in Ef. by vm_compute in Ef. }
      rewrite (bool_decide_eq_false_2 _ Hr), (bool_decide_eq_false_2 _ Hi).
      cbn. split; eauto.
Qed.

Lemma message_then_key {A} (m : result A) (key : string)  :
  (∃ k msg, (msg0 ← m ;;; Return (Str key, msg0)) = Return (k, msg)
            ∧ is_string k = true)
  ↔ ∃ msg, m = Return msg.
Proof.
  destruct m as [a|x]; cbn; split.
  - eauto.
  - intros _. by eexists _, _.
  - by intros (? & ? & ? & _).
  - by intros [? ?].
Qed.


Section normalizer_returns.

Variable get : value → string → value.



Lemma dispatch_pattern data e key :
  keyword e = "pattern" →
  dispatch get data e key =
    (if is_str (param e "pattern") ".+" && negb (truthy (get data key))
     then Return (Str key, Formatters.presentString)
     else msg ← Formatters.pattern (param e "pattern") ;;;
          Return (Str key, msg)).
Proof. intros H. unfold dispatch. rewrite H. reflexivity. Qed.

Lemma dispatch_outcome data e key :
  ((∃ k msg, dispatch get data e key = Return (k, msg) ∧ is_string k = true)
   ↔ well_formed e = true)
  ∧ (∀ x, dispatch get data e key = Throw x → x = TypeError).
Proof.
  unfold dispatch, well_formed. by_keyword e.
  1-3: split; [|done]; split; [by intros (? & ? & [= <- <-] & ?) | eauto].
  1-7, 11: split; [|done]; split; [done | intros _; by eexists _, _].
  - split.
    + rewrite message_then_key.
      destruct (param e "allowedValues"); cbn; split;
        eauto; try done; by intros [? ?].
    + intros x. destruct (param e "allowedValues"); cbn; congruence.
  - split.
    + destruct (param e "pattern") as [| | | |p| |]; cbn [is_str andb].
      1-4, 6-7: split; [by intros (? & ? & ? & _) | done].
      split; [done | intros _].
      destruct (_ && _); by eexists _, _.
    + intros x. destruct (_ && _); [done|].
      destruct (param e "pattern"); cbn; congruence.
  - split.
    + rewrite message_then_key, <-format_returns.
      destruct (param e "format") as [| | | |f| |]; cbn [is_str]; try done.
      case_bool_decide as Hf; [subst f|done].
      split; intros _; by eexists.
    + intros x [H|(msg & _ & ?)]%bind_Throw; [|done].
      destruct (registry_member _) as [f|] eqn:E; [|done].
      by eapply registry_throws.
Qed.

Lemma convert_one_returns (data : value) (e : ValidationResult) :
  (∃ r, convert_one get data e = Return r) ↔ well_formed e = true.
Proof.
  unfold convert_one.
  rewrite <-(proj1 (dispatch_outcome data e (normalize_key (dataPath e)))).
  destruct (dispatch _ _ _ _) as [[k msg]|x]; cbn [bind].
  - split.
    + intros [r H]. exists k, msg. split; [done|].
      apply find_property_returns.
      destruct (find_property k); [eauto|done].
    + intros (k' & msg' & [= <- <-] & [p ->]%find_property_returns).
      cbn. eauto.
  - split; [by intros [? ?] | by intros (? & ? & ? & _)].
Qed.

Lemma convert_one_throws (data : value) (e : ValidationResult) (x : exn) :
  convert_one get data e = Throw x → x = TypeError.
Proof.
  unfold convert_one.
  intros [H|([k msg] & _ & H)]%bind_Throw.
  - by eapply dispatch_outcome.
  - apply bind_Throw in H as [H|(p & _ & ?)]; [|done].
    by eapply find_property_throws.
Qed.

Lemma convert_one_ill_formed (data : value) (e : ValidationResult) :
  well_formed e = false → convert_one get data e = Throw TypeError.
Proof.
  intros Hwf. destruct (convert_one get data e) as [r|x] eqn:E.
  - assert (well_formed e = true) by (apply (convert_one_returns data); eauto).
    congruence.
  - by rewrite (convert_one_throws _ _ _ E).
Qed.

Lemma convert_loop_returns data errors es :
  forallb well_formed es = true →
  ∃ errors', convert_loop get data errors es = Return errors'.
Proof.
  revert errors. induction es as [|e es IH]; intros errors; cbn; [eauto|].
  intros [[[p msg] He]%(convert_one_returns data) Hes]%andb_true_iff.
  rewrite He. cbn. by apply IH.
Qed.

Lemma convert_loop_throws data errors es :
  forallb well_formed es = false →
  convert_loop get data errors es = Throw TypeError.
Proof.
  revert errors. induction es as [|e es IH]; intros errors; cbn; [done|].
  destruct (well_formed e) eqn:He; cbn.
  - apply (convert_one_returns data) in He as [[p msg] ->]. cbn. apply IH.
  - intros _. by rewrite (convert_one_ill_formed data e He).
Qed.

End normalizer_returns.

(** ** The normalizer: the loop *)


Lemma assign_lookup_eq (errors : gmap string string) (p msg : string) :
  p ≠ "__proto__" → assign errors p msg !! p = Some msg.
Proof.
  intros H. unfold assign. rewrite bool_decide_eq_false_2 by done.
  by rewrite lookup_insert_eq.
Qed.

Lemma assign_lookup_proto (errors : gmap string string) (q msg : string) :
  assign errors q msg !! "__proto__" = errors !! "__proto__".
Proof.
  unfold assign. case_bool_decide; [done|]. by rewrite lookup_insert_ne.
Qed.

Section normalizer_loop.

Variable get : value → string → value.

Lemma convert_loop_app data errors l1 l2 :
  convert_loop get data errors (l1 ++ l2)
  = (errors' ← convert_loop get data errors l1 ;;;
     convert_loop get data errors' l2).
Proof.
  revert errors. induction l1 as [|e l1 IH]; intros errors; [done|].
  cbn. destruct (convert_one get data e) as [[p msg]|x]; cbn; [apply IH|done].
Qed.


Lemma convert_loop_proto data errors es out :
  convert_loop get data errors es = Return out →
  out !! "__proto__" = errors !! "__proto__".
Proof.
  revert errors. induction es as [|e es IH]; intros errors.
  - by intros [= <-].
  - cbn [convert_loop]. intros ([p msg] & _ & ->%IH)%bind_Return.
    apply assign_lookup_proto.
Qed.


Lemma convertValidationErrors_shape section data es out :
  convertValidationErrors get section data es = Return out →
  ∃ errors, convert_loop get data ∅ es = Return errors
            ∧ out = {[ alias_section section := errors ]}.
Proof.
  unfold convertValidationErrors.
  intros (errors & H & [= <-])%bind_Return. eauto.
Qed.






End normalizer_loop.

(** ** The property path of a failure *)

Section property_path.
Variable get : value → string → value.

Lemma convert_one_property data e p msg :
  convert_one get data e = Return (p, msg) →
  ∃ key, p = finalize_property key.
Proof.
  unfold convert_one.
  intros ([k m] & _ & (p' & Hp & [= <- _])%bind_Return)%bind_Return.
  destruct k; try done. injection Hp as <-. eauto.
Qed.

(** C5, as amended. The property of every failure is the finalization of
    a key and is never empty.  Finalization turns a path written with
    names and bracketed parts into the dotted notation, every bracketed
    part [[k]] becoming a dot and [k] (quotes inside the brackets are
    kept); then one pair of surrounding quotes goes exactly when the path
    starts with a quote, ends with a quote and holds in between at least
    one character and no dot; then an empty path becomes [$root].  A
    failure at [items[2].name] under [body] yields the key [items.2.name]
    in the [body] section, and a failure at the empty path the key
    [$root]. *)
Theorem property_path_finalization :
  (∀ data e p msg, convert_one get data e = Return (p, msg) →
     ∃ key, p = finalize_property key ∧ p ≠ "")
  ∧ (∀ segs, forallb segment_ok segs = true →
       finalize_property (raw_path segs)
       = (let property := dotted_path segs in
          let property :=
            if quoted_match property
            then substring property 1 (String.length property - 1)
            else property in
          if bool_decide (property = "") then "$root" else property))
  ∧ (∀ s, quoted_match s = true
          ↔ ∃ q1 mid q2, s = String q1 (mid +:+ String q2 "")
                         ∧ is_quote q1 = true ∧ is_quote q2 = true
                         ∧ mid ≠ "" ∧ all_chars (not_char ".") mid = true)
  ∧ (∀ q1 mid q2,
       let s := String q1 (mid +:+ String q2 "") in
       substring s 1 (String.length s - 1) = mid)
  ∧ finalize_property "" = "$root"
  ∧ (∀ data,
       convertValidationErrors get "body" data [type_failure "items[2].name"]
       = Return {[ "body" := {[ "items.2.name" := "must be a string" ]} ]})
  ∧ (∀ data,
       convertValidationErrors get "body" data [type_failure ""]
       = Return {[ "body" := {[ "$root" := "must be a string" ]} ]}).
Proof.
  split_and!.
  - intros data e p msg [key ->]%convert_one_property.
    exists key. split; [done|]. apply finalize_property_not_empty.
  - apply finalize_property_segments.
  - apply quoted_match_spec.
  - apply substring_strip.
  - reflexivity.
  - intros data. vm_compute. reflexivity.
  - intros data. vm_compute. reflexivity.
Qed.
End property_path.


(** ** The pattern kind *)

Section pattern_kind.
Variable get : value → string → value.

(** C7, as amended. For a failure of kind [pattern] with pattern [P], the
    value is looked up in the input data at the normalized key (the raw
    path without its leading dot and without a pair of brackets around the
    whole of it), before the property path is finalized.  When [P] is
    [.+] and that value is falsy the message is the one of
    [presentString]; otherwise it is the pattern message, in which every
    marker [(?:] of [P] is replaced by an opening parenthesis and the rest
    of [P] is kept.  The failure record is an argument of a pure function:
    nothing alters it. *)
Theorem pattern_message data e P :
  keyword e = "pattern" →
  param e "pattern" = Str P →
  convert_one get data e
  = Return (finalize_property (normalize_key (dataPath e)),
            if bool_decide (P = ".+")
               && negb (truthy (get data (normalize_key (dataPath e))))
            then "must be a non empty string"
            else "must match pattern " +:+ dquote
                 +:+ replace_all non_capturing_match P +:+ dquote)
  ∧ (∀ name, startsWith name "[" && endsWith name "]" = false →
       normalize_key ("." +:+ name) = name)
  ∧ (∀ a b, replace_all non_capturing_match (a +:+ "(?:" +:+ b)
            = replace_all non_capturing_match a
              +:+ "(" +:+ replace_all non_capturing_match b)
  ∧ (∀ s, includes s "(?:" = false → replace_all non_capturing_match s = s).
Proof.
  intros Hk HP. split_and!; [| |apply replace_marker|apply replace_no_marker].
  - unfold convert_one. rewrite dispatch_pattern by done. rewrite HP.
    cbn [is_str]. destruct (_ && _); reflexivity.
  - intros name H. change ("." +:+ name) with (String "." name).
    by rewrite normalize_key_dot, H.
Qed.
End pattern_kind.


(** ** The format kind *)




Section format_kind.
Variable get : value → string → value.


End format_kind.


(** ** The path walker *)





Lemma walk_app (target : value) (tokens1 tokens2 : list string) :
  Utils.walk target (tokens1 ++ tokens2)
  = (v ← Utils.walk target tokens1 ;;; Utils.walk v tokens2).
Proof.
  revert target. induction tokens1 as [|token tokens1 IH]; intros target.
  - done.
  - destruct target; [by destruct tokens2 | by destruct tokens2 | ..];
      cbn [Utils.walk app];
      destruct (Utils.token_index token); cbn [get_index get_prop bind];
      apply IH.
Qed.

(** ** The guard and the declared responses *)

Section guard_claims.

Variable get : value → string → value.
Variable schema : Type.
Variable compile : schema → validator.

Abbreviation install schemas pre :=
  (preSerialization
     (addResponseValidation get schema compile
        {| response := Some schemas; preSerialization := pre |})).


(** C2. On a route with declared response schemas, for a status code that
    is not [INTERNAL_SERVER_ERROR] and has no declared schema, the installed
    guard raises the 500 error whose message is the undeclared-status
    message, which contains the status code, and which carries no
    [failedValidations]; a route that declares a schema for 200 only and
    responds with 201 fails with the message naming 201. *)
Theorem guard_rejects_undeclared_status schemas pre statusCode payload :
  statusCode ≠ INTERNAL_SERVER_ERROR →
  schemas !! pretty statusCode = None →
  (∃ hook, install schemas pre = Some hook
     ∧ hook statusCode payload
       = Throw (HttpError 500
                  ("This endpoint cannot respond with HTTP status "
                   +:+ pretty statusCode +:+ ".")
                  None)
     ∧ includes (Formatters.invalidResponseCode (Number statusCode))
         (pretty statusCode) = true)
  ∧ (∀ sch, ∃ hook, install {[ "200" := sch ]} pre = Some hook
       ∧ hook 201 payload
         = Throw (HttpError 500
                    "This endpoint cannot respond with HTTP status 201." None)
       ∧ includes "This endpoint cannot respond with HTTP status 201." "201"
         = true).
Proof.
  intros Hcode Hsch.
  assert (∀ (table : gmap string schema) code,
            code ≠ INTERNAL_SERVER_ERROR → table !! pretty code = None →
            guard get (compile_validators schema compile table) code payload
            = Throw (HttpError 500
                       ("This endpoint cannot respond with HTTP status "
                        +:+ pretty code +:+ ".")
                       None)) as Hguard.
  { intros table code Hne Hnone. unfold guard.
    rewrite bool_decide_eq_false_2 by done.
    cbn [to_string]. by rewrite compile_validators_lookup, Hnone. }
  split.
  - eexists. split; [apply guard_installed|]. split.
    + by apply Hguard.
    + apply includes_app.
  - intros sch. eexists. split; [apply guard_installed|]. split.
    + by rewrite Hguard.
    + by vm_compute.
Qed.

(** C3. On a route with declared response schemas, the installed guard
    returns the payload unchanged when the status code is
    [INTERNAL_SERVER_ERROR]; so does the guard over any table of validators
    whatever, one with a validator for 500 included: no validator is
    consulted. *)
Theorem guard_skips_internal_error schemas pre payload :
  ∃ hook, install schemas pre = Some hook
    ∧ hook INTERNAL_SERVER_ERROR payload = Return payload
    ∧ ∀ validators : gmap string validator,
        guard get validators INTERNAL_SERVER_ERROR payload = Return payload.
Proof. eexists. split; [apply guard_installed|]. done. Qed.

End guard_claims.

(** ** Instances *)


Lemma guard_rejects_undeclared_status_witness :
  ∃ hook,
    preSerialization
      (addResponseValidation walker_get string compile_required
         {| response := Some {[ "200" := "id" ]}; preSerialization := None |})
    = Some hook
    ∧ hook 201 (Obj [("id", Number 7)])
      = Throw (HttpError 500
                 ("This endpoint cannot respond with HTTP status "
                  +:+ pretty 201 +:+ ".") None)
    ∧ includes (Formatters.invalidResponseCode (Number 201)) (pretty 201)
      = true.
Proof.
  apply (guard_rejects_undeclared_status walker_get string compile_required
           {[ "200" := "id" ]} None 201 (Obj [("id", Number 7)]));
    [by vm_compute | reflexivity].
Defined.




(** The path [items[2]['x-y'].name], cut into its segments. *)
Lemma property_path_finalization_witness :
  finalize_property "items[2]['x-y'].name" = "items.2.'x-y'.name".
Proof.
  pose proof (proj1 (proj2 (property_path_finalization walker_get))
                [Name "items"; Bracket "2"; Bracket "'x-y'"; Name ".name"]
                eq_refl) as H.
  exact H.
Defined.

(** A pattern failure on an empty string. *)
Lemma pattern_message_witness :
  convert_one walker_get (Obj [("name", Str "")]) (pattern_failure ".name" ".+")
  = Return ("name", "must be a non empty string").
Proof.
  exact (proj1 (pattern_message walker_get (Obj [("name", Str "")])
                  (pattern_failure ".name" ".+") ".+" eq_refl eq_refl)).
Defined.


(** ** Where the code departs from the specification *)

(** A failure at the raw path [[2].name] gets the key [.2.name], with the
    dot of the converted index in front, and not the key [2.name]; and the
    quotes around [a.b] stay, for there is a dot between them. *)
Lemma leading_index_keeps_dot_and_dotted_quotes_stay :
  convertValidationErrors walker_get "body" (Arr []) [type_failure "[2].name"]
  = Return {[ "body" := {[ ".2.name" := "must be a string" ]} ]}
  ∧ ({[ ".2.name" := "must be a string" ]} : gmap string string) !! "2.name" = None
  ∧ finalize_property "'a.b'" = "'a.b'".
Proof. split_and!; vm_compute; reflexivity. Qed.
(** The value of a pattern failure is read at the normalized key, not at
    the raw path: at the raw path [.name] nothing is found, which would
    give the [presentString] message, while the code finds the line feed
    stored under [name] and gives the pattern message. *)
Lemma pattern_value_is_read_at_the_normalized_key :
  let data := Obj [("name", Str line_feed)] in
  let e := pattern_failure ".name" ".+" in
  walker_get data (dataPath e) = Undefined
  ∧ walker_get data (normalize_key (dataPath e)) = Str line_feed
  ∧ pattern_message_at_raw_path walker_get data e
    = Return "must be a non empty string"
  ∧ convert_one walker_get data e
    = Return ("name", "must match pattern " +:+ dquote +:+ ".+" +:+ dquote)
  ∧ "must match pattern " +:+ dquote +:+ ".+" +:+ dquote
    ≠ "must be a non empty string".
Proof. split_and!; try (vm_compute; reflexivity). done. Qed.




(** * Further properties *)

(** ** Reversal and suffixes *)

Lemma rev_app_spec (a b : string) : String.rev_app a b = String.rev a +:+ b.
Proof.
  revert b. induction a as [|c a IH]; intros b; [done|].
  unfold String.rev. cbn [String.rev_app].
  by rewrite (IH (String c b)), (IH (String c "")), app_assoc.
Qed.

Lemma rev_cons (c : ascii) (a : string) :
  String.rev (String c a) = String.rev a +:+ String c "".
Proof. unfold String.rev at 1. cbn [String.rev_app]. apply rev_app_spec. Qed.

Lemma rev_app_distr (a b : string) :
  String.rev (a +:+ b) = String.rev b +:+ String.rev a.
Proof.
  induction a as [|c a IH]; [by rewrite app_nil_l, app_nil_r|].
  by rewrite app_cons, !rev_cons, IH, app_assoc.
Qed.

Lemma rev_involutive (s : string) : String.rev (String.rev s) = s.
Proof.
  induction s as [|c s IH]; [done|].
  by rewrite rev_cons, rev_app_distr, IH.
Qed.

Lemma prefix_split (p s : string) :
  String.prefix p s = true → ∃ v, s = p +:+ v.
Proof.
  revert s. induction p as [|x p IH]; intros s; [by exists s|].
  destruct s as [|y s]; [done|]. rewrite prefix_cons.
  intros [->%bool_decide_eq_true [v ->]%IH]%andb_true_iff. by exists v.
Qed.

Lemma endsWith_app (a p : string) : endsWith (a +:+ p) p = true.
Proof. unfold endsWith. rewrite rev_app_distr. apply prefix_app. Qed.

Lemma endsWith_split (s p : string) :
  endsWith s p = true → ∃ a, s = a +:+ p.
Proof.
  unfold endsWith. intros [v Hv]%prefix_split. exists (String.rev v).
  by rewrite <-(rev_involutive s), Hv, rev_app_distr, rev_involutive.
Qed.

Lemma all_chars_rev p (s : string) :
  all_chars p (String.rev s) = all_chars p s.
Proof.
  induction s as [|c s IH]; [done|].
  rewrite rev_cons, all_chars_app, IH. cbn. by rewrite andb_true_r, andb_comm.
Qed.

(** ** Substrings, again *)

Lemma includes_split (s sub : string) :
  includes s sub = true → ∃ u v, s = u +:+ sub +:+ v.
Proof.
  induction s as [|c s IH].
  - cbn [includes]. rewrite orb_false_r. intros [v ->]%prefix_split.
    by exists "", v.
  - cbn [includes]. intros [[v Hv]%prefix_split|(u & v & ->)%IH]%orb_true_iff.
    + exists "", v. by rewrite Hv.
    + by exists (String c u), v.
Qed.

Lemma includes_app_l (a b sub : string) :
  includes a sub = true → includes (a +:+ b) sub = true.
Proof.
  intros (u & v & ->)%includes_split.
  rewrite !app_assoc. apply includes_app.
Qed.

Lemma includes_app_r (a b sub : string) :
  includes b sub = true → includes (a +:+ b) sub = true.
Proof.
  intros (u & v & ->)%includes_split.
  rewrite <-app_assoc. apply includes_app.
Qed.

Lemma includes_refl (s : string) : includes s s = true.
Proof.
  pose proof (includes_app "" s "") as H. by rewrite app_nil_l, app_nil_r in H.
Qed.

(** ** [niceJoin] *)

Lemma join_snoc (sep : string) (l : list string) (x : string) :
  l ≠ [] → join sep (l ++ [x]) = join sep l +:+ sep +:+ x.
Proof.
  induction l as [|a l IH]; [done|]. intros _.
  destruct l as [|b l]; [done|].
  change (join sep ((a :: b :: l) ++ [x]))
    with (a +:+ sep +:+ join sep ((b :: l) ++ [x])).
  rewrite IH by done.
  change (join sep (a :: b :: l)) with (a +:+ sep +:+ join sep (b :: l)).
  by rewrite !app_assoc.
Qed.

Lemma niceJoin_snoc_eq (l : list string) (x lastSeparator separator : string) :
  l ≠ [] →
  niceJoin (l ++ [x]) lastSeparator separator
  = join separator l +:+ lastSeparator +:+ x.
Proof.
  intros Hl. destruct l as [|a [|b l]]; [done|done|].
  assert (niceJoin ((a :: b :: l) ++ [x]) lastSeparator separator
          = join separator
              (take (length ((a :: b :: l) ++ [x]) - 1) ((a :: b :: l) ++ [x]))
            +:+ lastSeparator
            +:+ default "" (last ((a :: b :: l) ++ [x]))) as ->
    by by destruct l.
  rewrite last_snoc, List.length_app. cbn [default].
  replace (length (a :: b :: l) + length [x] - 1)%nat
    with (length (a :: b :: l)) by (cbn; lia).
  by rewrite take_app_length.
Qed.

Lemma join_includes (sep : string) (l : list string) (x : string) :
  x ∈ l → includes (join sep l) x = true.
Proof.
  induction l as [|a l IH]; [by intros ?%elem_of_nil|].
  intros [->|Hx]%elem_of_cons.
  - destruct l as [|b l]; [apply includes_refl|].
    change (join sep (a :: b :: l)) with (a +:+ sep +:+ join sep (b :: l)).
    apply includes_app_l, includes_refl.
  - destruct l as [|b l]; [by apply elem_of_nil in Hx|].
    change (join sep (a :: b :: l)) with (a +:+ sep +:+ join sep (b :: l)).
    by apply includes_app_r, includes_app_r, IH.
Qed.

Lemma list_snoc_cases {A} (l : list A) : l = [] ∨ ∃ l' x, l = l' ++ [x].
Proof. destruct l as [|a l] using rev_ind; [by left | right; eauto]. Qed.

Lemma niceJoin_includes_item array x lastSeparator separator :
  x ∈ array → includes (niceJoin array lastSeparator separator) x = true.
Proof.
  destruct (list_snoc_cases array) as [->|(l & y & ->)];
    [by intros ?%elem_of_nil|].
  destruct l as [|a l]; [intros ->%list_elem_of_singleton; apply includes_refl|].
  rewrite niceJoin_snoc_eq by done.
  intros [Hx| ->%list_elem_of_singleton]%elem_of_app.
  - by apply includes_app_l, join_includes.
  - apply includes_app_r, includes_app_r, includes_refl.
Qed.

(** ** Paths and tokens *)

Lemma split_not_nil (sep : ascii) (s : string) : split sep s ≠ [].
Proof.
  induction s as [|c s IH]; [done|]. cbn [split].
  case_bool_decide; [done|]. by destruct (split sep s).
Qed.

Lemma split_app (sep : ascii) (a b : string) :
  split sep (a +:+ String sep b) = split sep a ++ split sep b.
Proof.
  induction a as [|c a IH].
  - rewrite app_nil_l. cbn [split]. by rewrite bool_decide_eq_true_2.
  - rewrite app_cons. cbn [split]. rewrite IH.
    case_bool_decide; [done|].
    pose proof (split_not_nil sep a). by destruct (split sep a).
Qed.

Lemma split_plain (sep : ascii) (s : string) :
  all_chars (not_char sep) s = true → split sep s = [s].
Proof.
  induction s as [|c s IH]; [done|]. cbn [all_chars split].
  intros [Hc Hs]%andb_true_iff. apply negb_true_iff in Hc.
  by rewrite Hc, IH.
Qed.

Lemma trim_start_no_space (s : string) :
  all_chars (λ c, negb (is_white_space c)) s = true → trim_start s = s.
Proof.
  destruct s as [|c s]; [done|]. cbn [all_chars trim_start].
  intros [Hc _]%andb_true_iff. apply negb_true_iff in Hc. by rewrite Hc.
Qed.

Lemma trim_no_space (s : string) :
  all_chars (λ c, negb (is_white_space c)) s = true → trim s = s.
Proof.
  intros H. unfold trim. rewrite (trim_start_no_space s H).
  rewrite trim_start_no_space by by rewrite all_chars_rev.
  apply rev_involutive.
Qed.

Lemma is_digit_spec (c : ascii) :
  is_digit c = true →
  is_white_space c = false ∧ not_char "." c = true ∧ not_char "[" c = true.
Proof. by destruct c as [[] [] [] [] [] [] [] []]. Qed.

Lemma digits_trim (ds : string) : all_chars is_digit ds = true → trim ds = ds.
Proof.
  intros H. apply trim_no_space. revert H. apply all_chars_impl.
  by intros c [-> _]%is_digit_spec.
Qed.

Lemma digits_split (ds : string) :
  all_chars is_digit ds = true → split "." ds = [ds].
Proof.
  intros H. apply split_plain. revert H. apply all_chars_impl.
  by intros c (_ & ? & _)%is_digit_spec.
Qed.

Lemma take_while_all p (s : string) :
  all_chars p s = true → take_while p s = s.
Proof.
  induction s as [|c s IH]; [done|]. cbn.
  intros [-> Hs]%andb_true_iff. by rewrite IH.
Qed.

Lemma token_index_digits (ds : string) :
  ds ≠ "" → all_chars is_digit ds = true → Utils.token_index ds = Some ds.
Proof.
  intros Hne H. unfold Utils.token_index. rewrite take_while_all by done.
  by destruct ds.
Qed.

Lemma get_digits (target : value) (ds : string) :
  ds ≠ "" → all_chars is_digit ds = true →
  Utils.get target ds
  = match target with
    | Undefined | Null => Return Undefined
    | _ => get_index target (parseInt ds)
    end.
Proof.
  intros Hne H. unfold Utils.get.
  rewrite digits_split by done. cbn [map]. rewrite digits_trim by done.
  cbn [Utils.walk]. rewrite token_index_digits by done.
  destruct target; try done; cbn [get_index bind]; by destruct (_ : value).
Qed.

(** ** Decimal writing and reading *)

Lemma parse_digits_app (acc : Z) (a b : string) :
  all_chars is_digit a = true →
  parse_digits acc (a +:+ b) = parse_digits (parse_digits acc a) b.
Proof.
  revert acc. induction a as [|c a IH]; intros acc; [done|].
  cbn [all_chars]. intros [Hc Ha]%andb_true_iff.
  rewrite app_cons. cbn [parse_digits].
  unfold is_digit in Hc. destruct (Ascii.is_nat c); [by apply IH|done].
Qed.

Lemma pretty_N_char_digit (d : N) :
  (d < 10)%N → Ascii.is_nat (pretty_N_char d) = Some (N.to_nat d).
Proof.
  intros H.
  assert (d = 0 ∨ d = 1 ∨ d = 2 ∨ d = 3 ∨ d = 4 ∨ d = 5 ∨ d = 6 ∨ d = 7
          ∨ d = 8 ∨ d = 9)%N as Hd by lia.
  by destruct_or!; subst.
Qed.

Lemma pretty_N_go_app (x : N) (s : string) :
  pretty_N_go x s = pretty_N_go x "" +:+ s.
Proof.
  revert s. induction (N.lt_wf_0 x) as [x _ IH]; intros s.
  destruct (decide (x = 0)%N) as [->|Hx]; [by rewrite !pretty_N_go_0|].
  assert (x `div` 10 < x)%N as Hlt by (apply N.div_lt; lia).
  rewrite (pretty_N_go_step x s), (pretty_N_go_step x "") by lia.
  rewrite (IH _ Hlt (String _ s)), (IH _ Hlt (String _ "")).
  by rewrite app_assoc.
Qed.

Lemma pretty_N_go_digits (x : N) :
  all_chars is_digit (pretty_N_go x "") = true
  ∧ parse_digits 0 (pretty_N_go x "") = Z.of_N x.
Proof.
  induction (N.lt_wf_0 x) as [x _ IH].
  destruct (decide (x = 0)%N) as [->|Hx]; [by rewrite pretty_N_go_0|].
  assert (x `div` 10 < x)%N as Hlt by (apply N.div_lt; lia).
  rewrite pretty_N_go_step, pretty_N_go_app by lia.
  destruct (IH _ Hlt) as [Hd Hp].
  pose proof (pretty_N_char_digit (x `mod` 10)%N) as Hc.
  split.
  - rewrite all_chars_app, Hd. cbn. unfold is_digit.
    by rewrite Hc by (apply N.mod_lt; lia).
  - rewrite parse_digits_app, Hp by done. cbn [parse_digits].
    rewrite Hc by (apply N.mod_lt; lia).
    rewrite N_nat_Z. rewrite (N.div_mod x 10) at 3 by lia. lia.
Qed.

Lemma pretty_digits (n : Z) :
  0 ≤ n →
  pretty n ≠ "" ∧ all_chars is_digit (pretty n) = true
  ∧ parseInt (pretty n) = n.
Proof.
  intros Hn. destruct n as [|p|p]; [done| |lia].
  change (pretty (Z.pos p)) with (pretty_N_go (N.pos p) "").
  destruct (pretty_N_go_digits (N.pos p)) as [Hd Hp].
  split_and!; [|done|done].
  intros H. unfold parseInt in Hp. by rewrite H in Hp.
Qed.

(** ** The path walker, further *)

Lemma take_while_drop p (s : string) :
  take_while p s +:+ drop (String.length (take_while p s)) s = s.
Proof.
  induction s as [|c s IH]; [done|]. cbn [take_while].
  destruct (p c); [|done]. rewrite app_cons. cbn. by rewrite IH.
Qed.

Lemma length_drop (n : nat) (s : string) :
  String.length (drop n s) = (String.length s - n)%nat.
Proof.
  revert s. induction n as [|n IH]; intros [|c s]; cbn;
    first [done | lia | apply IH].
Qed.

Lemma length_take_while_app p (a : string) (c : ascii) (r : string) :
  p c = false →
  (String.length (take_while p (a +:+ String c r)) ≤ String.length a)%nat.
Proof.
  intros Hc. induction a as [|x a IH].
  - rewrite app_nil_l. cbn. by rewrite Hc.
  - rewrite app_cons. cbn. destruct (p x); cbn; lia.
Qed.

Lemma bracket_index_at_ends (s ds : string) :
  Utils.bracket_index_at s = Some ds → endsWith s "]" = true.
Proof.
  destruct s as [|c t]; [done|]. unfold Utils.bracket_index_at.
  destruct (_ && _) eqn:E; [|done]. intros _.
  apply andb_true_iff in E as [_ E%bool_decide_eq_true].
  rewrite <-(take_while_drop is_digit t), E.
  rewrite <-app_cons. apply endsWith_app.
Qed.

Lemma endsWith_cons (c : ascii) (s p : string) :
  endsWith s p = true → endsWith (String c s) p = true.
Proof.
  intros [a ->]%endsWith_split. rewrite <-app_cons. apply endsWith_app.
Qed.

Lemma bracket_index_ends (s ds : string) :
  Utils.bracket_index s = Some ds → endsWith s "]" = true.
Proof.
  induction s as [|c s IH]; [done|].
  cbn [Utils.bracket_index].
  destruct (Utils.bracket_index_at (String c s)) as [ds'|] eqn:E.
  - intros _. by eapply bracket_index_at_ends.
  - intros H. by apply endsWith_cons, IH.
Qed.

Lemma bracket_index_at_whole (ds : string) :
  ds ≠ "" → all_chars is_digit ds = true →
  Utils.bracket_index_at (String "[" (ds +:+ "]")) = Some ds.
Proof.
  intros Hne Hds. unfold Utils.bracket_index_at.
  rewrite take_while_app, drop_app by done.
  rewrite (bool_decide_eq_false_2 (ds = "")) by done.
  by rewrite !bool_decide_eq_true_2.
Qed.

Lemma bracket_index_at_longer (c : ascii) (q ds : string) :
  ds ≠ "" →
  Utils.bracket_index_at (String c (q +:+ String "[" (ds +:+ "]"))) = None.
Proof.
  intros Hne. unfold Utils.bracket_index_at.
  set (t := q +:+ String "[" (ds +:+ "]")).
  pose proof (length_take_while_app is_digit q "[" (ds +:+ "]") eq_refl) as Hl.
  fold t in Hl.
  assert (String.length t = String.length q + String.length ds + 2)%nat
    as Ht.
  { unfold t. rewrite length_app. cbn [String.length].
    rewrite length_app. cbn [String.length]. lia. }
  assert (drop (String.length (take_while is_digit t)) t ≠ "]") as Hd.
  { intros H%(f_equal String.length). rewrite length_drop, Ht in H.
    cbn [String.length] in H.
    assert (String.length ds ≠ 0)%nat by by destruct ds.
    lia. }
  by rewrite (bool_decide_eq_false_2 _ Hd), andb_false_r.
Qed.

Lemma bracket_index_suffix (pre ds : string) :
  ds ≠ "" → all_chars is_digit ds = true →
  Utils.bracket_index (pre +:+ String "[" (ds +:+ "]")) = Some ds.
Proof.
  intros Hne Hds. induction pre as [|c pre IH].
  - rewrite app_nil_l. cbn [Utils.bracket_index].
    by rewrite bracket_index_at_whole.
  - rewrite app_cons. cbn [Utils.bracket_index].
    by rewrite bracket_index_at_longer.
Qed.

Lemma take_while_nil_app p (a b : string) :
  a ≠ "" → take_while p a = "" → take_while p (a +:+ b) = "".
Proof.
  destruct a as [|c a]; [done|]. intros _. rewrite app_cons. cbn.
  by destruct (p c).
Qed.

Lemma token_index_bracket_suffix (pre ds : string) :
  take_while is_digit pre = "" →
  ds ≠ "" → all_chars is_digit ds = true →
  Utils.token_index (pre +:+ String "[" (ds +:+ "]")) = Some ds.
Proof.
  intros Hpre Hne Hds. unfold Utils.token_index.
  assert (take_while is_digit (pre +:+ String "[" (ds +:+ "]")) = "") as ->.
  { destruct pre as [|c pre]; [done|]. by apply take_while_nil_app. }
  by apply bracket_index_suffix.
Qed.

Lemma token_index_plain (token : string) :
  take_while is_digit token = "" → endsWith token "]" = false →
  Utils.token_index token = None.
Proof.
  intros Hd He. unfold Utils.token_index. rewrite Hd.
  destruct (Utils.bracket_index token) as [ds|] eqn:E; [|done].
  apply bracket_index_ends in E. congruence.
Qed.

Lemma walk_one (target : value) (token : string) :
  Utils.walk target [token]
  = match target with
    | Undefined | Null => Return Undefined
    | _ =>
        match Utils.token_index token with
        | Some ds => get_index target (parseInt ds)
        | None => get_prop target token
        end
    end.
Proof.
  destruct target; try done; cbn [Utils.walk];
    by destruct (match Utils.token_index token with
                 | Some _ => _ | None => _ end).
Qed.

Lemma get_compose_eq (target : value) (p1 p2 : string) :
  Utils.get target (p1 +:+ "." +:+ p2)
  = (v ← Utils.get target p1 ;;; Utils.get v p2).
Proof.
  unfold Utils.get.
  change (p1 +:+ "." +:+ p2) with (p1 +:+ String "." p2).
  by rewrite split_app, map_app, walk_app.
Qed.

(** ** The normalizer, further *)

Lemma app_not_empty_r (a b : string) : b ≠ "" → a +:+ b ≠ "".
Proof.
  intros Hb H%(f_equal String.length). rewrite length_app in H.
  destruct b; [done|]. cbn in H. lia.
Qed.

Section normalizer_further.

Variable get : value → string → value.

Lemma convert_one_not_empty data e p msg :
  convert_one get data e = Return (p, msg) → p ≠ "" ∧ msg ≠ "".
Proof.
  unfold convert_one.
  intros ([k m] & _ & (p' & Hp & [= <- <-])%bind_Return)%bind_Return.
  split.
  - destruct k; try done. injection Hp as <-.
    apply finalize_property_not_empty.
  - case_bool_decide; [|done]. apply app_not_empty_r. by rewrite app_cons.
Qed.

Lemma assign_union (errors : gmap string string) (p msg : string) :
  assign errors p msg = assign ∅ p msg ∪ errors.
Proof.
  unfold assign. case_bool_decide.
  - by rewrite (left_id_L ∅ (∪)).
  - by rewrite insert_empty, <-insert_union_singleton_l.
Qed.

Lemma convert_loop_union data errors es :
  convert_loop get data errors es
  = (m ← convert_loop get data ∅ es ;;; Return (m ∪ errors)).
Proof.
  revert errors. induction es as [|e es IH]; intros errors.
  - cbn. by rewrite (left_id_L ∅ (∪)).
  - cbn [convert_loop].
    destruct (convert_one get data e) as [[p msg]|x]; cbn [bind]; [|done].
    rewrite (IH (assign errors p msg)), (IH (assign ∅ p msg)).
    destruct (convert_loop get data ∅ es) as [m|x]; cbn [bind]; [|done].
    by rewrite (assign_union errors), (assoc_L (∪)).
Qed.

Lemma convert_loop_inv (P : gmap string string → Prop) data errors es out :
  P errors →
  (∀ m e p msg, e ∈ es → convert_one get data e = Return (p, msg) →
     p ≠ "__proto__" → P m → P (<[p := msg]> m)) →
  convert_loop get data errors es = Return out → P out.
Proof.
  revert errors. induction es as [|e es IH]; intros errors Hacc Hstep.
  - by intros [= <-].
  - cbn [convert_loop].
    intros ([p msg] & He & Hloop)%bind_Return.
    eapply IH; [| |exact Hloop].
    + unfold assign. case_bool_decide; [done|].
      eapply Hstep; [apply elem_of_cons; by left|done|done|done].
    + intros m e' p' msg' He'. apply Hstep. apply elem_of_cons. by right.
Qed.

End normalizer_further.

Section normalizer_extras.

Variable get : value → string → value.

Lemma convert_loop_size data errors es out :
  convert_loop get data errors es = Return out →
  (size out ≤ size errors + length es)%nat.
Proof.
  revert errors. induction es as [|e es IH]; intros errors.
  - intros [= <-]. cbn. lia.
  - cbn [convert_loop]. intros ([p msg] & _ & Hloop%IH)%bind_Return.
    unfold assign in Hloop. cbn [length].
    case_bool_decide; [lia|]. rewrite map_size_insert in Hloop.
    destruct (errors !! p); cbn in Hloop; lia.
Qed.

Lemma convert_loop_keys data errors es out e p msg :
  convert_loop get data errors es = Return out →
  e ∈ es → convert_one get data e = Return (p, msg) →
  p ≠ "__proto__" →
  is_Some (out !! p).
Proof.
  intros Hloop (l1 & l2 & ->)%list_elem_of_split He Hp.
  rewrite convert_loop_app in Hloop.
  apply bind_Return in Hloop as (a1 & _ & Hloop).
  cbn [convert_loop] in Hloop. rewrite He in Hloop. cbn [bind] in Hloop.
  rewrite convert_loop_union in Hloop.
  apply bind_Return in Hloop as (m2 & _ & [= <-]).
  apply lookup_union_is_Some. right. rewrite assign_lookup_eq by done.
  by eexists.
Qed.

Lemma dispatch_reads_data data data' (get' : value → string → value) e key :
  reads_data e = false →
  dispatch get data e key = dispatch get' data' e key.
Proof.
  unfold reads_data. intros H. unfold dispatch.
  destruct (bool_decide (keyword e = "pattern")); [|reflexivity].
  cbn [andb] in H. rewrite H. reflexivity.
Qed.

Lemma convert_loop_reads_data data data' (get' : value → string → value)
    errors es :
  forallb (λ e, negb (reads_data e)) es = true →
  convert_loop get data errors es = convert_loop get' data' errors es.
Proof.
  revert errors. induction es as [|e es IH]; intros errors; [done|].
  cbn [forallb convert_loop]. intros [He Hes]%andb_true_iff.
  apply negb_true_iff in He.
  unfold convert_one. rewrite (dispatch_reads_data data data' get') by done.
  destruct (dispatch get' data' e _) as [[k m]|x]; cbn [bind]; [|done].
  destruct (find_property k) as [p|x]; cbn [bind]; [|done].
  by apply IH.
Qed.

Lemma dispatch_named_property data e key :
  keyword e = "required" ∨ keyword e = "dependencies" →
  dispatch get data e key
  = Return (param e "missingProperty", Formatters.missing).
Proof. intros [H|H]; unfold dispatch; rewrite H; reflexivity. Qed.

Lemma dispatch_additional_property data e key :
  keyword e = "additionalProperties" →
  dispatch get data e key
  = Return (param e "additionalProperty", Formatters.unknown).
Proof. intros H. unfold dispatch. rewrite H. reflexivity. Qed.

End normalizer_extras.

(** ** Keys written with brackets *)

Lemma normalize_key_outer_brackets (k : string) :
  normalize_key (String "[" (k +:+ "]")) = k.
Proof.
  unfold normalize_key.
  assert (startsWith (String "[" (k +:+ "]")) "." = false) as ->
    by (unfold startsWith; by rewrite prefix_cons).
  assert (startsWith (String "[" (k +:+ "]")) "[" = true) as ->
    by (unfold startsWith; by rewrite prefix_cons, prefix_nil).
  rewrite <-app_cons, endsWith_app, app_cons. cbn [andb].
  apply (substring_strip "[" k "]").
Qed.

Lemma bracket_match_open p (b : string) :
  all_chars p b = true → bracket_match p (String "[" b) = None.
Proof.
  intros Hb. unfold bracket_match. rewrite take_while_all by done.
  pose proof (drop_app b "") as Hd. rewrite app_nil_r in Hd. rewrite Hd.
  cbn [head_is]. by rewrite !andb_false_r.
Qed.

Lemma replace_all_unclosed p (a b : string) :
  all_chars (not_char "[") a = true →
  all_chars (not_char "[") b = true →
  all_chars p b = true →
  replace_all (bracket_match p) (a +:+ String "[" b) = a +:+ String "[" b.
Proof.
  intros Ha Hb Hp.
  rewrite replace_all_pass by (apply bracket_match_other || done).
  rewrite replace_all_miss by by apply bracket_match_open.
  pose proof (replace_all_pass (bracket_match p)
                (λ c t, bracket_match_other p c t) b "" Hb) as H.
  change (replace_all (bracket_match p) "") with "" in H.
  rewrite !app_nil_r in H. by rewrite H.
Qed.

Lemma digits_no_bracket (ds : string) :
  all_chars is_digit ds = true →
  all_chars (not_char "[") ds = true
  ∧ all_chars (λ c, negb (bool_decide (c = "]"%char))) ds = true.
Proof.
  intros H. split; revert H; apply all_chars_impl.
  - by intros c (_ & _ & ?)%is_digit_spec.
  - intros c Hc. by destruct c as [[] [] [] [] [] [] [] []].
Qed.

Lemma quoted_match_digit (c : ascii) (s : string) :
  is_digit c = true → quoted_match (String c s) = false.
Proof.
  intros Hc. destruct s as [|x s]; [done|]. cbn [quoted_match].
  assert (is_quote c = false) as -> by by destruct c as [[] [] [] [] [] [] [] []].
  done.
Qed.

Lemma dotted_path_app (p q : list segment) :
  dotted_path (p ++ q) = dotted_path p +:+ dotted_path q.
Proof.
  induction p as [|[s|k] p IH]; [done|..]; cbn [app dotted_path];
    by rewrite IH, ?app_assoc.
Qed.

Lemma segment_ok_dotted_name (k : string) :
  segment_ok (Bracket k) = true → segment_ok (Name ("." +:+ k)) = true.
Proof.
  intros (_ & Hopen & _)%segment_ok_bracket. cbn [segment_ok].
  by rewrite all_chars_app, Hopen.
Qed.

(** ** Kinds filed under their path *)

Section path_kinds.

Variable get : value → string → value.

Lemma dispatch_path_key data e key k msg :
  names_property (keyword e) = false →
  dispatch get data e key = Return (k, msg) → k = Str key.
Proof.
  unfold names_property, dispatch. by_keyword e.
  1-3: intros [=].
  1-7, 11: intros _ [= <- _]; reflexivity.
  - intros _ (? & _ & [= <- _])%bind_Return. reflexivity.
  - intros _. destruct (_ && _);
      [intros [= <- _] | intros (? & _ & [= <- _])%bind_Return];
      reflexivity.
  - intros _ (? & _ & [= <- _])%bind_Return. reflexivity.
Qed.

End path_kinds.

(** ** Lists in prose *)

(** X1. [niceJoin] on two items or more: all the items but the last are
    joined with the separator, then come the last separator and the last
    item; the case of two items follows the same rule. *)
Theorem niceJoin_last_separator (l : list string)
    (x lastSeparator separator : string) :
  l ≠ [] →
  niceJoin (l ++ [x]) lastSeparator separator
  = join separator l +:+ lastSeparator +:+ x.
Proof. apply niceJoin_snoc_eq. Qed.

(** X2. When the last separator is the separator, [niceJoin] is the plain
    join, on every list. *)
Theorem niceJoin_one_separator (array : list string) (separator : string) :
  niceJoin array separator separator = join separator array.
Proof.
  destruct (list_snoc_cases array) as [->|(l & y & ->)]; [done|].
  destruct l as [|a l]; [done|].
  by rewrite niceJoin_snoc_eq, join_snoc.
Qed.

(** X3. Every item of the list is part of the text [niceJoin] returns. *)
Theorem niceJoin_includes_every_item array x lastSeparator separator :
  x ∈ array → includes (niceJoin array lastSeparator separator) x = true.
Proof. apply niceJoin_includes_item. Qed.


(** ** The path walker: tokens, indices and the nullish stop *)



(** ** The path walker *)

(** X5. Walking a path made of two paths with a dot between them is walking
    the first, then walking the second from the value reached. *)
Theorem get_follows_dotted_paths (target : value) (p1 p2 : string) :
  Utils.get target (p1 +:+ "." +:+ p2)
  = (v ← Utils.get target p1 ;;; Utils.get v p2).
Proof. apply get_compose_eq. Qed.

(** X6. The decimal writing of an index reads back as the index, and [get]
    on an array with that path gives the element at the index, or
    [undefined] past the end. *)
Theorem get_array_element (items : list value) (i : nat) :
  Z.of_nat i < 2 ^ 53 →
  parseInt (pretty (Z.of_nat i)) = Z.of_nat i
  ∧ Utils.get (Arr items) (pretty (Z.of_nat i))
    = Return (default Undefined (items !! i)).
Proof.
  intros _.
  destruct (pretty_digits (Z.of_nat i)) as (Hne & Hd & Hp); [lia|].
  split; [done|].
  rewrite get_digits by done. cbn [get_index]. by rewrite Hp, Nat2Z.id.
Qed.

(** X7. A path of digits on an object reads the property named by the
    canonical decimal writing of the number: leading zeros are lost, so a
    property whose own name has them is not found under that name. *)
Theorem get_numeric_key_is_canonical (props : list (string * value))
    (ds : string) :
  ds ≠ "" → all_chars is_digit ds = true → parseInt ds < 2 ^ 53 →
  Utils.get (Obj props) ds
  = Return (lookup_prop props (pretty (parseInt ds)))
  ∧ (∀ v, ds ≠ pretty (parseInt ds) →
       Utils.get (Obj [(ds, v)]) ds = Return Undefined).
Proof.
  intros Hne Hd _. split.
  - by rewrite get_digits.
  - intros v Hds. rewrite get_digits by done. cbn [get_index lookup_prop].
    by rewrite bool_decide_eq_false_2.
Qed.

(** X8. On an object, a path that is one plain name (no dot, no white space
    at its ends, no digit in front, no closing bracket at the end) and
    that is no name of [Object.prototype] reads the own property of that
    name: the value stored under it, [undefined] when there is none. *)
Theorem get_own_property (props : list (string * value)) (name : string)
    (v : value) :
  all_chars (not_char ".") name = true →
  trim name = name →
  take_while is_digit name = "" →
  endsWith name "]" = false →
  inherited_name name = false →
  Utils.get (Obj props) name = Return (lookup_prop props name)
  ∧ Utils.get (Obj ((name, v) :: props)) name = Return v
  ∧ Utils.get (Obj []) name = Return Undefined.
Proof.
  intros Hdot Htrim Hdigit Hend _.
  assert (∀ ps, Utils.get (Obj ps) name = Return (lookup_prop ps name)) as H.
  { intros ps. unfold Utils.get. rewrite split_plain by done.
    cbn [map]. rewrite Htrim, walk_one, token_index_plain by done. done. }
  split_and!; rewrite H; [done| |done].
  cbn [lookup_prop]. by rewrite bool_decide_eq_true_2.
Qed.

(** X9. A token that ends with digits between brackets is read as that
    index of the value at hand: the name in front of the bracket is
    ignored, so [items[1]] walks like [1]. *)
Theorem get_bracket_suffix_ignores_name (target : value) (pre ds : string) :
  take_while is_digit pre = "" →
  all_chars plain_char pre = true →
  ds ≠ "" → all_chars is_digit ds = true →
  Utils.token_index (pre +:+ "[" +:+ ds +:+ "]") = Some ds
  ∧ Utils.get target (pre +:+ "[" +:+ ds +:+ "]") = Utils.get target ds.
Proof.
  intros Hpre Hplain Hne Hd.
  change (pre +:+ "[" +:+ ds +:+ "]") with (pre +:+ String "[" (ds +:+ "]")).
  pose proof (token_index_bracket_suffix pre ds Hpre Hne Hd) as Hi.
  split; [done|].
  assert (all_chars plain_char (pre +:+ String "[" (ds +:+ "]")) = true)
    as Htoken.
  { rewrite all_chars_app, Hplain. cbn [all_chars andb].
    rewrite all_chars_app. cbn [all_chars].
    assert (all_chars plain_char ds = true) as ->; [|done].
    revert Hd. apply all_chars_impl. intros c (Hw & Hdot & _)%is_digit_spec.
    unfold plain_char. by rewrite Hw, Hdot. }
  unfold Utils.get at 1. rewrite split_plain.
  2:{ revert Htoken. apply all_chars_impl.
      by intros c [? _]%andb_true_iff. }
  cbn [map]. rewrite trim_no_space.
  2:{ revert Htoken. apply all_chars_impl.
      by intros c [_ ?]%andb_true_iff. }
  rewrite walk_one, Hi, get_digits by done. done.
Qed.

(** ** [upperFirst] *)

Section upperFirst_properties.

Variable toUpperCase : string → string.

Lemma upperFirst_cons (c : ascii) (rest : string) :
  upperFirst toUpperCase (Str (String c rest))
  = Str (toUpperCase (String c "") +:+ rest).
Proof. cbn [upperFirst]. by rewrite substring_from_1. Qed.

(** X10. [upperFirst] returns what is not a string, and the empty string,
    as it is; of a string that is not empty it upper-cases the first
    character and keeps the rest; applied twice it does what it does
    once, as long as upper-casing the upper-cased first character changes
    nothing. *)
Theorem upperFirst_first_character_only :
  (∀ source, is_string source = false →
     upperFirst toUpperCase source = source)
  ∧ upperFirst toUpperCase (Str "") = Str ""
  ∧ (∀ c rest,
       upperFirst toUpperCase (Str (String c rest))
       = Str (toUpperCase (String c "") +:+ rest))
  ∧ (∀ c rest u us,
       toUpperCase (String c "") = String u us →
       toUpperCase (String u "") = String u "" →
       upperFirst toUpperCase (upperFirst toUpperCase (Str (String c rest)))
       = upperFirst toUpperCase (Str (String c rest))).
Proof.
  split_and!.
  - by intros [].
  - done.
  - apply upperFirst_cons.
  - intros c rest u us Hc Hu.
    by rewrite upperFirst_cons, Hc, app_cons, upperFirst_cons, Hu.
Qed.

End upperFirst_properties.

(** ** The normalizer *)

Section normalizer_theorems.

Variable get : value → string → value.

(** X11. In the result of [convertValidationErrors] no property path and no
    message is the empty string. *)
Theorem entries_are_not_empty section data es out :
  convertValidationErrors get section data es = Return out →
  ∀ name errors p msg,
    out !! name = Some errors → errors !! p = Some msg → p ≠ "" ∧ msg ≠ "".
Proof.
  intros (errors0 & Hloop & ->)%convertValidationErrors_shape
    name errors p msg [_ <-]%lookup_singleton_Some Hp.
  revert p msg Hp.
  apply (convert_loop_inv get
           (λ m, ∀ p msg, m !! p = Some msg → p ≠ "" ∧ msg ≠ "")
           data ∅ es errors0); [done| |done].
  intros m e p msg _ He _ Hm q msg' [[<- <-]|[_ Hq]]%lookup_insert_Some.
  - by eapply convert_one_not_empty.
  - by eapply Hm.
Qed.

(** X12. On a list of failures whose messages are strings, the entries of
    the result are those of the failures: every entry
    is the property and the message of a failure of the list, the property
    of every failure of the list has an entry unless it is [__proto__],
    under which there is none, and there are no more entries than
    failures. *)
Theorem entries_come_from_failures section data es errors :
  string_messages es = true →
  convertValidationErrors get section data es
  = Return {[ alias_section section := errors ]} →
  (∀ p msg, errors !! p = Some msg →
     ∃ e, e ∈ es ∧ convert_one get data e = Return (p, msg))
  ∧ (∀ e p msg, e ∈ es → convert_one get data e = Return (p, msg) →
       p ≠ "__proto__" → is_Some (errors !! p))
  ∧ errors !! "__proto__" = None
  ∧ (size errors ≤ length es)%nat.
Proof.
  intros _ (errors0 & Hloop & Heq)%convertValidationErrors_shape.
  assert (errors0 = errors) as ->.
  { apply (f_equal (λ m, m !! alias_section section)) in Heq.
    rewrite !lookup_singleton_eq in Heq. congruence. }
  split_and!.
  - apply (convert_loop_inv get
             (λ m, ∀ p msg, m !! p = Some msg →
                     ∃ e, e ∈ es ∧ convert_one get data e = Return (p, msg))
             data ∅ es errors); [done| |done].
    intros m e p msg He Hc _ Hm q msg' [[<- <-]|[_ Hq]]%lookup_insert_Some.
    + eauto.
    + by apply Hm.
  - intros e p msg He Hc Hp. by eapply convert_loop_keys.
  - by rewrite (convert_loop_proto _ _ _ _ _ Hloop).
  - apply convert_loop_size in Hloop. by rewrite map_size_empty in Hloop.
Qed.

(** X13. The result for a list followed by another is the result for the
    second laid over the result for the first: where both have an entry,
    the one of the second list stands.  (The messages are strings: an
    object stored by the first list as the prototype of the mapping could
    make an assignment of the second raise.) *)
Theorem later_failures_override section data l1 l2 m1 m2 :
  string_messages (l1 ++ l2) = true →
  convertValidationErrors get section data l1
  = Return {[ alias_section section := m1 ]} →
  convertValidationErrors get section data l2
  = Return {[ alias_section section := m2 ]} →
  convertValidationErrors get section data (l1 ++ l2)
  = Return {[ alias_section section := m2 ∪ m1 ]}.
Proof.
  intros _ (a1 & H1 & Heq1)%convertValidationErrors_shape
           (a2 & H2 & Heq2)%convertValidationErrors_shape.
  apply (f_equal (λ m, m !! alias_section section)) in Heq1, Heq2.
  rewrite !lookup_singleton_eq in Heq1, Heq2.
  injection Heq1 as <-. injection Heq2 as <-.
  unfold convertValidationErrors.
  rewrite convert_loop_app, H1. cbn [bind].
  by rewrite (convert_loop_union get data m1), H2.
Qed.

(** X14. The input data (and [get]) matter only to the failures of kind
    [pattern] whose pattern is [.+]: without such a failure in the list the
    result is the same for any data. *)
Theorem data_is_read_for_the_present_string_only
    (get' : value → string → value) section data data' es :
  forallb (λ e, negb (reads_data e)) es = true →
  convertValidationErrors get section data es
  = convertValidationErrors get' section data' es.
Proof.
  intros H. unfold convertValidationErrors.
  by rewrite (convert_loop_reads_data get data data' get').
Qed.

(** X15. A failure of kind [required], [dependencies] or
    [additionalProperties] is filed under the finalized name its [params]
    give, with the fixed message of the kind: its own path and message
    play no part, and a name that is not a string makes the call raise. *)
Theorem named_property_ignores_path data e :
  names_property (keyword e) = true →
  let name :=
    if bool_decide (keyword e = "additionalProperties")
    then param e "additionalProperty" else param e "missingProperty" in
  let msg :=
    if bool_decide (keyword e = "additionalProperties")
    then "is not a valid property" else "must be present" in
  convert_one get data e
  = match name with
    | Str k => Return (finalize_property k, msg)
    | _ => Throw TypeError
    end.
Proof.
  unfold names_property.
  intros [[Hk%bool_decide_eq_true|Hk%bool_decide_eq_true]%orb_true_iff
         |Hk%bool_decide_eq_true]%orb_true_iff;
    unfold convert_one;
    [rewrite dispatch_named_property by auto
    |rewrite dispatch_named_property by auto
    |rewrite dispatch_additional_property by auto];
    rewrite Hk; cbn [bind]; decide_closed;
    by destruct (param e _).
Qed.

(** X16. A failure of any other kind is filed under its own path: the
    finalized form of the normalized [dataPath]. *)
Theorem path_kinds_are_filed_under_their_path data e p msg :
  names_property (keyword e) = false →
  convert_one get data e = Return (p, msg) →
  p = finalize_property (normalize_key (dataPath e)).
Proof.
  intros Hk. unfold convert_one.
  intros ([k m] & Hd & (p' & Hp & [= <- _])%bind_Return)%bind_Return.
  apply dispatch_path_key in Hd as ->; [|done]. by injection Hp.
Qed.

End normalizer_theorems.

(** ** The guard *)

Section guard_theorems.

Variable get : value → string → value.
Variable schema : Type.
Variable compile : schema → validator.

(** X17. The guard never changes a payload and never raises anything but
    a 500 error or the [TypeError] of the normalizer; with the status 500
    it does not raise at all. *)
Theorem guard_outcomes (validators : gmap string validator)
    (statusCode : Z) (payload : value) :
  (∀ v, guard get validators statusCode payload = Return v → v = payload)
  ∧ (∀ x, guard get validators statusCode payload = Throw x →
       statusCode ≠ INTERNAL_SERVER_ERROR
       ∧ (x = TypeError
          ∨ ∃ msg failedValidations, x = HttpError 500 msg failedValidations)).
Proof.
  unfold guard. case_bool_decide as Hcode; [by split; [intros v [= <-]|]|].
  destruct (validators !! _) as [validator|].
  - destruct (valid (validator payload)); [by split; [intros v [= <-]|]|].
    split; [by intros v (? & _ & ?)%bind_Return|].
    intros x [H|(fv & _ & [= <-])]%bind_Throw; split; try done.
    + left. unfold convertValidationErrors in H.
      apply bind_Throw in H as [H|(errors & _ & ?)]; [|done].
      destruct (forallb well_formed (errors (validator payload))) eqn:E.
      * apply (convert_loop_returns get payload ∅) in E as [? E].
        congruence.
      * apply (convert_loop_throws get payload ∅) in E. congruence.
    + right. by eexists _, _.
  - split; [done|]. intros x [= <-]. split; [done|]. right. by eexists _, _.
Qed.


(** X19. A validator declared under a key that is not written with digits
    only (a status family, a default) is never read: with it or without
    it the guard does the same for every status. *)
Theorem non_decimal_status_keys_are_never_read
    (validators : gmap string validator) (key : string) (v : validator)
    (statusCode : Z) (payload : value) :
  0 ≤ statusCode →
  all_chars is_digit key = false →
  guard get (<[key := v]> validators) statusCode payload
  = guard get (delete key validators) statusCode payload.
Proof.
  intros Hcode Hkey.
  assert (key ≠ pretty statusCode) as Hne.
  { intros ->. destruct (pretty_digits statusCode Hcode) as (_ & Hd & _).
    congruence. }
  unfold guard. cbn [to_string].
  by rewrite lookup_insert_ne, lookup_delete_ne.
Qed.

(** X20. Registering the guard twice is registering it once; the declared
    schemas stay as they are; a route without declared responses comes
    back as it is, and on a route with them the guard takes the place of
    whatever hook was there. *)
Theorem addResponseValidation_idempotent (route : RouteOptions schema) :
  addResponseValidation get schema compile
    (addResponseValidation get schema compile route)
  = addResponseValidation get schema compile route
  ∧ response (addResponseValidation get schema compile route) = response route
  ∧ (response route = None →
       addResponseValidation get schema compile route = route)
  ∧ (∀ schemas, response route = Some schemas →
       preSerialization (addResponseValidation get schema compile route)
       = Some (guard get (compile_validators schema compile schemas))).
Proof.
  unfold addResponseValidation. destruct route as [[schemas|] pre]; cbn.
  - split_and!; [done|done|done|]. by intros ? [= <-].
  - done.
Qed.

End guard_theorems.

(** ** Keys written with brackets *)

(** X21. When a key starts with an opening bracket and ends with a closing
    one, the normalization takes the two away whatever stands between, a
    leading dot gone first; so a path of two indices [[a][b]] loses its
    outer brackets only and is filed under [a][b] with the inner ones. *)
Theorem normalize_key_strips_outer_brackets (k : string) :
  normalize_key ("[" +:+ k +:+ "]") = k
  ∧ normalize_key (".[" +:+ k +:+ "]") = k
  ∧ (∀ a b, a ≠ "" → all_chars is_digit a = true →
       all_chars is_digit b = true →
       k = a +:+ "][" +:+ b →
       finalize_property (normalize_key ("[" +:+ k +:+ "]")) = k).
Proof.
  pose proof (normalize_key_outer_brackets k) as Hk.
  split_and!.
  - exact Hk.
  - change (".[" +:+ k +:+ "]") with (String "." (String "[" (k +:+ "]"))).
    rewrite normalize_key_dot.
    assert (startsWith (String "[" (k +:+ "]")) "[" = true) as ->
      by (unfold startsWith; by rewrite prefix_cons, prefix_nil).
    rewrite <-app_cons, endsWith_app, app_cons. cbn [andb].
    apply (substring_strip "[" k "]").
  - intros a b Ha Hda Hdb ->.
    change ("[" +:+ (a +:+ "][" +:+ b) +:+ "]")
      with (String "[" ((a +:+ "][" +:+ b) +:+ "]")).
    rewrite normalize_key_outer_brackets.
    destruct (digits_no_bracket a Hda) as [Hao _].
    destruct (digits_no_bracket b Hdb) as [Hbo Hbc].
    unfold finalize_property, array_path_match, object_path_match.
    change (a +:+ "][" +:+ b) with (a +:+ String "]" (String "[" b)).
    replace (a +:+ String "]" (String "[" b))
      with ((a +:+ "]") +:+ String "[" b) by by rewrite app_assoc.
    assert (all_chars (not_char "[") (a +:+ "]") = true) as Hopen
      by by rewrite all_chars_app, Hao.
    rewrite !replace_all_unclosed by done.
    destruct a as [|c a]; [done|].
    rewrite app_cons, app_cons, quoted_match_digit
      by (cbn in Hda; by apply andb_true_iff in Hda as [? _]).
    by rewrite bool_decide_eq_false_2.
Qed.

(** X22. A bracketed part and the same part written after a dot finalize
    to the same key: [items[0].name] and [items.0.name] share one entry. *)
Theorem bracket_and_dot_notation_agree (pre post : list segment) (k : string) :
  forallb segment_ok (pre ++ Bracket k :: post) = true →
  finalize_property (raw_path (pre ++ Bracket k :: post))
  = finalize_property (raw_path (pre ++ Name ("." +:+ k) :: post)).
Proof.
  intros Hok.
  assert (forallb segment_ok (pre ++ Name ("." +:+ k) :: post) = true)
    as Hok'.
  { rewrite forallb_app in Hok |- *. cbn [forallb] in Hok |- *.
    apply andb_true_iff in Hok as [-> [Hk ->]%andb_true_iff].
    by rewrite (segment_ok_dotted_name k Hk). }
  rewrite !finalize_property_segments by done.
  by rewrite !dotted_path_app.
Qed.

(** ** Instances of the further properties *)

Lemma niceJoin_last_separator_witness :
  niceJoin ["a"; "b"; "c"] " and " ", " = "a, b and c".
Proof.
  apply (niceJoin_last_separator ["a"; "b"] "c" " and " ", ").
  discriminate.
Defined.

Lemma niceJoin_includes_every_item_witness :
  includes (niceJoin ["a"; "b"; "c"] " and " ", ") "b" = true.
Proof.
  apply niceJoin_includes_every_item.
  apply elem_of_cons. right. apply elem_of_cons. left. reflexivity.
Defined.


Lemma get_array_element_witness :
  Utils.get (Arr [Str "a"; Str "b"]) "1" = Return (Str "b").
Proof.
  apply (proj2 (get_array_element [Str "a"; Str "b"] 1 eq_refl)).
Defined.

Lemma get_numeric_key_is_canonical_witness :
  Utils.get (Obj [("007", Str "bond"); ("7", Str "seven")]) "007"
  = Return (Str "seven")
  ∧ Utils.get (Obj [("007", Str "bond")]) "007" = Return Undefined.
Proof.
  destruct (get_numeric_key_is_canonical
              [("007", Str "bond"); ("7", Str "seven")] "007")
    as [Hread Hlost]; [discriminate | reflexivity | reflexivity |].
  split; [exact Hread|]. apply Hlost. discriminate.
Defined.

Lemma get_own_property_witness :
  Utils.get (Obj [("id", Number 7)]) "id" = Return (Number 7)
  ∧ Utils.get (Obj []) "id" = Return Undefined.
Proof.
  destruct (get_own_property [] "id" (Number 7)) as (_ & Hfound & Hnone);
    [reflexivity | reflexivity | reflexivity | reflexivity | reflexivity |].
  split; [exact Hfound | exact Hnone].
Defined.

Lemma get_bracket_suffix_ignores_name_witness :
  Utils.get (Arr [Str "a"; Str "b"]) "items[1]" = Return (Str "b").
Proof.
  destruct (get_bracket_suffix_ignores_name (Arr [Str "a"; Str "b"])
              "items" "1") as [_ H];
    [reflexivity | reflexivity | discriminate | reflexivity |].
  exact H.
Defined.

Lemma upperFirst_first_character_only_witness :
  upperFirst ascii_upper (upperFirst ascii_upper (Str "hello world"))
  = upperFirst ascii_upper (Str "hello world").
Proof.
  apply (proj2 (proj2 (proj2 (upperFirst_first_character_only ascii_upper)))
           "h"%char "ello world" "H"%char ""); reflexivity.
Defined.

Lemma entries_are_not_empty_witness :
  convertValidationErrors walker_get "body" (Obj []) [type_failure ".page"]
  = Return {[ "body" := {[ "page" := "must be a string" ]} ]}
  ∧ "page" ≠ "" ∧ "must be a string" ≠ "".
Proof.
  assert (convertValidationErrors walker_get "body" (Obj [])
            [type_failure ".page"]
          = Return {[ "body" := {[ "page" := "must be a string" ]} ]})
    as H by (vm_compute; reflexivity).
  split; [exact H|].
  apply (entries_are_not_empty walker_get _ _ _ _ H "body"
           {[ "page" := "must be a string" ]}); reflexivity.
Defined.

Lemma entries_come_from_failures_witness :
  convertValidationErrors walker_get "querystring" (Obj [])
    [type_failure ".page"; required_failure "id"]
  = Return {[ "query" := {[ "page" := "must be a string";
                            "id" := "must be present" ]} ]}
  ∧ is_Some (({[ "page" := "must be a string";
                 "id" := "must be present" ]} : gmap string string) !! "id").
Proof.
  assert (convertValidationErrors walker_get "querystring" (Obj [])
            [type_failure ".page"; required_failure "id"]
          = Return {[ alias_section "querystring" :=
                        {[ "page" := "must be a string";
                           "id" := "must be present" ]} ]})
    as H by (vm_compute; reflexivity).
  split; [exact H|].
  destruct (entries_come_from_failures walker_get "querystring" (Obj [])
              [type_failure ".page"; required_failure "id"] _ eq_refl H)
    as (_ & Hkeys & _).
  apply (Hkeys (required_failure "id") "id" "must be present").
  - apply elem_of_cons. right. apply elem_of_cons. left. reflexivity.
  - reflexivity.
  - discriminate.
Defined.

Lemma later_failures_override_witness :
  convertValidationErrors walker_get "body" (Obj [])
    ([type_failure ".id"] ++ [required_failure "id"])
  = Return {[ "body" := {[ "id" := "must be present" ]}
                        ∪ {[ "id" := "must be a string" ]} ]}.
Proof.
  apply (later_failures_override walker_get "body" (Obj [])
           [type_failure ".id"] [required_failure "id"]);
    vm_compute; reflexivity.
Defined.

Lemma data_is_read_for_the_present_string_only_witness :
  convertValidationErrors walker_get "body" (Obj [("page", Number 1)])
    [type_failure ".page"; pattern_failure ".name" "^a"]
  = convertValidationErrors (λ _ _, Undefined) "body" Null
      [type_failure ".page"; pattern_failure ".name" "^a"].
Proof.
  apply data_is_read_for_the_present_string_only. reflexivity.
Defined.

Lemma named_property_ignores_path_witness :
  convert_one walker_get (Obj [])
    {| keyword := "required"; dataPath := ".user";
       params := {[ "missingProperty" := Str "id" ]};
       message := "should have required property 'id'" |}
  = Return ("id", "must be present").
Proof.
  pose proof (named_property_ignores_path walker_get (Obj [])
                {| keyword := "required"; dataPath := ".user";
                   params := {[ "missingProperty" := Str "id" ]};
                   message := "should have required property 'id'" |}
                eq_refl) as H.
  etrans; [exact H|]. vm_compute. reflexivity.
Defined.

Lemma path_kinds_are_filed_under_their_path_witness :
  convert_one walker_get (Obj []) (type_failure ".items[0]")
  = Return ("items.0", "must be a string")
  ∧ "items.0" = finalize_property (normalize_key ".items[0]").
Proof.
  assert (convert_one walker_get (Obj []) (type_failure ".items[0]")
          = Return ("items.0", "must be a string")) as H
    by (vm_compute; reflexivity).
  split; [exact H|].
  apply (path_kinds_are_filed_under_their_path walker_get (Obj [])
           (type_failure ".items[0]") "items.0" "must be a string" eq_refl H).
Defined.

Lemma non_decimal_status_keys_are_never_read_witness :
  guard walker_get (<["2xx" := compile_required "id"]> ∅) 200 (Obj [])
  = guard walker_get (delete "2xx" ∅) 200 (Obj []).
Proof.
  apply non_decimal_status_keys_are_never_read; [discriminate | reflexivity].
Defined.

Lemma normalize_key_strips_outer_brackets_witness :
  finalize_property (normalize_key "[0][1]") = "0][1".
Proof.
  apply (proj2 (proj2 (normalize_key_strips_outer_brackets "0][1"))
           "0" "1"); [discriminate | reflexivity | reflexivity | reflexivity].
Defined.

Lemma bracket_and_dot_notation_agree_witness :
  finalize_property "items[0].name" = finalize_property "items.0.name".
Proof.
  apply (bracket_and_dot_notation_agree [Name "items"] [Name ".name"] "0").
  reflexivity.
Defined.
